(** * agent.py: file-context caching and conversation assembly

    A shallow embedding of [src/agent.py] and the properties of its
    file-context subsystem: the directory signature, the briefing builder,
    the conversation store, the staleness check of [process] and the
    read-eval loop of [main].

    Conventions of the embedding.
    - A Python [str] is a list of Unicode code points ([N]); Python [int]s
      are [Z].
    - The module globals [context] and [_last_sig] and what is written to
      the standard output (by [print] and by the prompt of [input]) form
      the [State] threaded through every function.
    - What the program reads from outside (the working directory and what
      the file system answers for each of its entries, the name of the
      script, the answer of the model provider) is the [Env] of one command.
      It is fixed while one command runs and may differ arbitrarily from one
      command to the next.
    - A Python exception is the [Raise] result; the state reached when it is
      raised is kept, as in Python. *)

From Stdlib Require Import List ZArith NArith Bool Lia String Ascii.
From Stdlib Require Import Sorting.Sorted Sorting.Permutation.
Import ListNotations.

Set Implicit Arguments.
Open Scope Z_scope.

(** ** Python strings *)

Definition char := N.
Definition str := list char.

(** A literal of the source, character by character. *)
Definition lit (s : string) : str := map N_of_ascii (list_ascii_of_string s).
Arguments lit s%_string.

(** ["\n"] *)
Definition nl : str := [10%N].

Definition len {A} (l : list A) : Z := Z.of_nat (List.length l).

Fixpoint str_eqb (a b : str) : bool :=
  match a, b with
  | [], [] => true
  | c :: a', d :: b' => N.eqb c d && str_eqb a' b'
  | _, _ => false
  end.

(** [s.startswith(p)] *)
Fixpoint startswith (s p : str) {struct p} : bool :=
  match p, s with
  | [], _ => true
  | c :: p', d :: s' => N.eqb c d && startswith s' p'
  | _ :: _, [] => false
  end.

(** [sep.join(parts)] *)
Fixpoint join (sep : str) (parts : list str) : str :=
  match parts with
  | [] => []
  | [p] => p
  | p :: rest => p ++ sep ++ join sep rest
  end.

(** [s[:n]], with Python's reading of a negative bound. *)
Definition slice_to (n : Z) (s : str) : str :=
  if n <? 0 then firstn (Z.to_nat (len s + n)) s else firstn (Z.to_nat n) s.

(** [s.rfind(c)] for a one-character [c]: the last index of [c], or -1. *)
Fixpoint rfind_from (c : char) (s : str) (i : Z) : Z :=
  match s with
  | [] => -1
  | d :: s' =>
      let r := rfind_from c s' (i + 1) in
      if 0 <=? r then r else if N.eqb d c then i else -1
  end.

Definition rfind (c : char) (s : str) : Z := rfind_from c s 0.

(** [str.lower], on the ASCII range.  Outside it Python's lowercasing never
    yields a string of the allow-list below: the only code points above 127
    whose lowercase has an ASCII letter are U+212A (giving k) and U+0130
    (giving i followed by U+0307), and no allowed extension has a k or a
    combining mark.  The membership test of the source is therefore the
    same with this function. *)
Definition lower_char (c : char) : char :=
  if (65 <=? c)%N && (c <=? 90)%N then (c + 32)%N else c.

Definition lower (s : str) : str := map lower_char s.

(** [str.isspace] of one character, the code points CPython treats as
    white space; [strip] removes them at both ends. *)
Definition isspace (c : char) : bool :=
  ((9 <=? c) && (c <=? 13) || (28 <=? c) && (c <=? 32) || (c =? 133)
   || (c =? 160) || (c =? 5760) || (8192 <=? c) && (c <=? 8202)
   || (c =? 8232) || (c =? 8233) || (c =? 8239) || (c =? 8287)
   || (c =? 12288))%N.

Fixpoint lstrip (s : str) : str :=
  match s with
  | c :: s' => if isspace c then lstrip s' else s
  | [] => []
  end.

Definition strip (s : str) : str := rev (lstrip (rev (lstrip s))).

(** Order of Python strings: lexicographic on code points. *)
Fixpoint str_compare (a b : str) : comparison :=
  match a, b with
  | [], [] => Eq
  | [], _ :: _ => Lt
  | _ :: _, [] => Gt
  | c :: a', d :: b' =>
      match N.compare c d with
      | Eq => str_compare a' b'
      | o => o
      end
  end.

Definition str_leb (a b : str) : bool :=
  match str_compare a b with Gt => false | _ => true end.

Definition str_lt (a b : str) : Prop := str_compare a b = Lt.

(** ** pathlib *)

(** [PurePath.suffix] of a file name: the part from the last dot on, when
    that dot is neither the first nor the last character (the definition of
    pathlib up to Python 3.13). *)
Definition suffix (name : str) : str :=
  let i := rfind 46%N name in
  if (0 <? i) && (i <? len name - 1) then skipn (Z.to_nat i) name else [].

(** ** Configuration *)

Definition MODEL : str := lit "gpt-5".

Definition MAX_FILE_CHARS : Z := 8000.

Definition INCLUDE_EXTENSIONS : list str :=
  [lit ".txt"; lit ".md"; lit ".py"; lit ".json"; lit ".yaml"; lit ".yml";
   lit ".tf"; lit ".tfvars"].

Definition FILE_CONTEXT_TAG : str := lit "__FILE_CONTEXT__".

Definition in_extensions (s : str) : bool :=
  existsb (str_eqb s) INCLUDE_EXTENSIONS.

(** ** Exceptions and results *)

Inductive exn : Type :=
| OSError (msg : str)
| APIError (msg : str).

Inductive result (A : Type) : Type :=
| Ok (a : A)
| Raise (e : exn).

Arguments Ok {A} a.
Arguments Raise {A} e.

(** ** The file system as one command sees it *)

Record stat_result : Type := { st_mtime_ns : Z; st_size : Z }.

(** One entry of the directory: its name and what the file system answers
    when the program asks [is_file()], [stat()] and
    [read_text(encoding="utf-8", errors="replace")] for it.  Each of the
    three may raise: [is_file()] answers [False] for a file that is not
    there, but passes on the other errors of the system (a permission
    error for instance); [stat()] and [read_text] raise for a file deleted
    since the listing.  The text is the decoded one; decoding itself never
    fails. *)
Record Path : Type := {
  name : str;
  is_file : result bool;
  stat : result stat_result;
  read_text : result str
}.

(** A directory: [str(base_dir)] and the outcome of [base_dir.iterdir()]. *)
Record Dir : Type := {
  dir_str : str;
  iterdir : result (list Path)
}.

(** [sorted(base_dir.iterdir())]: the paths share their parent, so they are
    ordered by name (POSIX paths: by code point, case-sensitive).  Python's
    sort is stable; so is this insertion sort. *)
Fixpoint insert_path (p : Path) (l : list Path) : list Path :=
  match l with
  | [] => [p]
  | q :: l' =>
      if str_leb (name p) (name q) then p :: l else q :: insert_path p l'
  end.

Definition sorted (l : list Path) : list Path :=
  fold_right insert_path [] l.

(** ** Conversation entries and program state *)

Inductive Role : Type := system | user | assistant.

Definition role_eqb (a b : Role) : bool :=
  match a, b with
  | system, system | user, user | assistant, assistant => true
  | _, _ => false
  end.

Record Entry : Type := { role : Role; content : str }.

(** One element of a directory signature: [(p.name, st_mtime_ns, st_size)]. *)
Definition FileRecord : Type := (str * Z * Z)%type.

Definition record_eqb (a b : FileRecord) : bool :=
  let '(n1, m1, z1) := a in
  let '(n2, m2, z2) := b in
  str_eqb n1 n2 && (m1 =? m2) && (z1 =? z2).

Fixpoint sig_eqb (a b : list FileRecord) : bool :=
  match a, b with
  | [], [] => true
  | x :: a', y :: b' => record_eqb x y && sig_eqb a' b'
  | _, _ => false
  end.

(** What was written to the standard output: one item per call of [print],
    and one per prompt of [input]. *)
Inductive Event : Type :=
| warn_skipped (file : str) (e : exn)
| info_loaded (count : Z) (base_dir : str) (included : list str)
| printed (text : str)
| asked (prompt : str).

Record State : Type := {
  context : list Entry;
  _last_sig : option (list FileRecord);
  stdout : list Event
}.

Record Env : Type := {
  cwd : Dir;
  agent_filename : str;
  client : str -> list Entry -> result str
}.

(** The state of a fresh process: [context = []], [_last_sig = None]. *)
Definition initial_state : State :=
  {| context := []; _last_sig := None; stdout := [] |}.

(** ** The monad of the program: environment, state and exceptions *)

Definition M (A : Type) : Type := Env -> State -> result A * State.

Definition ret {A} (a : A) : M A := fun _ s => (Ok a, s).

Definition bind {A B} (m : M A) (f : A -> M B) : M B :=
  fun env s =>
    match m env s with
    | (Ok a, s') => f a env s'
    | (Raise e, s') => (Raise e, s')
    end.

Notation "x <- m ;; k" := (bind m (fun x => k))
  (at level 61, m at next level, right associativity).
Notation "m ;; k" := (bind m (fun _ => k))
  (at level 61, right associativity).

(** The outcome of a call that may raise. *)
Definition lift {A} (r : result A) : M A := fun _ s => (r, s).

Definition ask : M Env := fun env s => (Ok env, s).

Definition get : M State := fun _ s => (Ok s, s).

(** Assignments to the globals, and [print]. *)
Definition with_context (c : list Entry) (s : State) : State :=
  {| context := c; _last_sig := _last_sig s; stdout := stdout s |}.

Definition with_last_sig (g : option (list FileRecord)) (s : State) : State :=
  {| context := context s; _last_sig := g; stdout := stdout s |}.

Definition with_print (ev : Event) (s : State) : State :=
  {| context := context s; _last_sig := _last_sig s;
     stdout := stdout s ++ [ev] |}.

Definition modify (f : State -> State) : M unit := fun _ s => (Ok tt, f s).

Definition set_context (c : list Entry) : M unit := modify (with_context c).

Definition set_last_sig (g : option (list FileRecord)) : M unit :=
  modify (with_last_sig g).

Definition print (ev : Event) : M unit := modify (with_print ev).

(** [context.append(m)] *)
Definition context_append (m : Entry) : M unit :=
  s <- get ;; set_context (context s ++ [m]).

(** ** The program *)

(** [project_dir()]: the resolved working directory. *)
Definition project_dir : M Dir := env <- ask ;; ret (cwd env).

(** The block of one file: [f"File: {path.name}\n---\n{content}\n"]. *)
Definition file_block (file content : str) : str :=
  lit "File: " ++ file ++ nl ++ lit "---" ++ nl ++ content ++ nl.

(** The body of the [for] loop of [build_file_context_message], over the
    sorted paths, with the two accumulators [included] and [file_blocks]. *)
Fixpoint build_loop (agent : str) (paths : list Path)
    (included file_blocks : list str) : M (list str * list str) :=
  match paths with
  | [] => ret (included, file_blocks)
  | path :: rest =>
      regular_file <- lift (is_file path) ;;
      if negb regular_file then build_loop agent rest included file_blocks
      else if str_eqb (name path) agent then
        build_loop agent rest included file_blocks
      else if negb (in_extensions (lower (suffix (name path)))) then
        build_loop agent rest included file_blocks
      else
        match read_text path with
        | Ok text =>
            let content := slice_to MAX_FILE_CHARS text in
            build_loop agent rest (included ++ [name path])
              (file_blocks ++ [file_block (name path) content])
        | Raise e =>
            print (warn_skipped (name path) e) ;;
            build_loop agent rest included file_blocks
        end
  end.

(** The text before the file blocks. *)
Definition briefing_header (base_dir : str) : str :=
  FILE_CONTEXT_TAG ++ nl
  ++ lit "Project directory: " ++ base_dir ++ nl
  ++ lit "You have access to the following files from the project directory. "
  ++ lit "Use them as context when answering. If the user asks about a file, "
  ++ lit "prefer quoting the relevant snippet and explaining it." ++ nl ++ nl.

Definition build_file_context_message (base_dir : Dir) : M (option Entry) :=
  env <- ask ;;
  paths <- lift (iterdir base_dir) ;;
  r <- build_loop (agent_filename env) (sorted paths) [] [] ;;
  let '(included, file_blocks) := r in
  print (info_loaded (len included) (dir_str base_dir) included) ;;
  match file_blocks with
  | [] => ret None
  | _ :: _ =>
      ret (Some {| role := system;
                   content := briefing_header (dir_str base_dir)
                              ++ join nl file_blocks |})
  end.

Definition add_initial_file_context : M unit :=
  base_dir <- project_dir ;;
  msg <- build_file_context_message base_dir ;;
  match msg with
  | Some m => s <- get ;; set_context (m :: context s)
  | None => ret tt
  end.

(** The test of the comprehension in [reload_file_context]:
    [m.get("role") == "system" and
     str(m.get("content", "")).startswith(FILE_CONTEXT_TAG)]. *)
Definition is_file_context (m : Entry) : bool :=
  role_eqb (role m) system && startswith (content m) FILE_CONTEXT_TAG.

Definition reload_file_context : M unit :=
  s <- get ;;
  set_context (filter (fun m => negb (is_file_context m)) (context s)) ;;
  add_initial_file_context.

(** The loop of [directory_signature]; a [stat()] that raises is passed
    over, an [is_file()] that raises is not caught. *)
Fixpoint signature_loop (agent : str) (paths : list Path)
    (sig : list FileRecord) : result (list FileRecord) :=
  match paths with
  | [] => Ok sig
  | p :: rest =>
      match is_file p with
      | Raise e => Raise e
      | Ok regular_file =>
          if regular_file && negb (str_eqb (name p) agent)
             && in_extensions (lower (suffix (name p))) then
            match stat p with
            | Ok st =>
                signature_loop agent rest
                  (sig ++ [(name p, st_mtime_ns st, st_size st)])
            | Raise _ => signature_loop agent rest sig
            end
          else signature_loop agent rest sig
      end
  end.

Definition directory_signature (base_dir : Dir) : M (list FileRecord) :=
  env <- ask ;;
  paths <- lift (iterdir base_dir) ;;
  lift (signature_loop (agent_filename env) (sorted paths) []).

(** [call()]: the request [client.responses.create(model=MODEL,
    input=context)] with the whole [context]; its result stands for the
    [output_text] of the response, or for the exception of the provider. *)
Definition call : M str :=
  env <- ask ;; s <- get ;; lift (client env MODEL (context s)).

(** [sig != _last_sig]; a tuple never equals [None]. *)
Definition sig_differs (sig : list FileRecord)
    (last : option (list FileRecord)) : bool :=
  match last with
  | None => true
  | Some l => negb (sig_eqb sig l)
  end.

Definition process (prompt : str) : M str :=
  base_dir <- project_dir ;;
  sig <- directory_signature base_dir ;;
  s <- get ;;
  (if sig_differs sig (_last_sig s)
   then reload_file_context ;; set_last_sig (Some sig)
   else ret tt) ;;
  context_append {| role := user; content := prompt |} ;;
  output <- call ;;
  context_append {| role := assistant; content := output |} ;;
  ret output.

(** How one round of the loop ends: [continue] or [break]. *)
Inductive Ctl : Type := Continue | Break.

(** One round of the [while True] loop of [main], from the line that
    [input("> ")] returned. *)
Definition repl_body (raw : str) : M Ctl :=
  let line := strip raw in
  match line with
  | [] => ret Continue
  | _ :: _ =>
      if str_eqb line (lit "/exit") || str_eqb line (lit "/quit") then
        print (printed (lit "Exiting.")) ;; ret Break
      else if str_eqb line (lit "/reload") then
        reload_file_context ;;
        print (printed (lit ">>> file context reloaded" ++ nl)) ;;
        ret Continue
      else
        result <- process line ;;
        print (printed (lit ">>> " ++ result ++ nl)) ;;
        ret Continue
  end.

(** The loop itself.  Every round starts with [input("> ")], which writes
    the prompt.  Every line comes with the environment in which it is
    handled; the end of the list is the end of the input ([EOFError], or an
    interrupt at the prompt), which leaves the loop.  The exceptions of
    [exn], raised by [process] or by a reload, are not caught by the loop
    and end it. *)
Fixpoint repl (inputs : list (Env * str)) (s : State) : result unit * State :=
  let s0 := with_print (asked (lit "> ")) s in
  match inputs with
  | [] => (Ok tt, with_print (printed (nl ++ lit "Exiting.")) s0)
  | (env, raw) :: rest =>
      match repl_body raw env s0 with
      | (Ok Continue, s') => repl rest s'
      | (Ok Break, s') => (Ok tt, s')
      | (Raise e, s') => (Raise e, s')
      end
  end.

(** [main()]: the initial build in the environment [env0] of the start;
    then, with arguments, one turn in [env1] (the prompt is
    [" ".join(sys.argv[1:])]); without, the loop over the input lines. *)
Definition main (argv : list str) (env0 env1 : Env)
    (inputs : list (Env * str)) : result unit * State :=
  match add_initial_file_context env0 initial_state with
  | (Raise e, s) => (Raise e, s)
  | (Ok _, s) =>
      if 1 <? len argv then
        (output <- process (join [32%N] (tl argv)) ;;
         print (printed output)) env1 s
      else repl inputs s
  end.

(** ** Specification-level readings of the loops *)

(** [is_file()] answers for every entry of a listing. *)
Definition all_answer (paths : list Path) : bool :=
  forallb (fun p => match is_file p with Ok _ => true | Raise _ => false end)
    paths.

(** The directory [d] can be listed, as [paths], and [is_file()] answers
    for each of them: what both loops need to run to their end. *)
Definition lists (d : Dir) (paths : list Path) : Prop :=
  iterdir d = Ok paths /\ all_answer paths = true.

(** The test of eligibility, as [directory_signature] writes it, for an
    entry whose [is_file()] answers. *)
Definition eligible (agent : str) (p : Path) : bool :=
  match is_file p with
  | Ok regular_file =>
      regular_file && negb (str_eqb (name p) agent)
      && in_extensions (lower (suffix (name p)))
  | Raise _ => false
  end.

(** The eligible files that could be read, with their whole decoded text,
    in the order of [paths]. *)
Fixpoint texts (agent : str) (paths : list Path) : list (str * str) :=
  match paths with
  | [] => []
  | p :: rest =>
      if eligible agent p then
        match read_text p with
        | Ok text => (name p, text) :: texts agent rest
        | Raise _ => texts agent rest
        end
      else texts agent rest
  end.

(** The warnings of the eligible files that could not be read. *)
Fixpoint warnings (agent : str) (paths : list Path) : list Event :=
  match paths with
  | [] => []
  | p :: rest =>
      if eligible agent p then
        match read_text p with
        | Ok _ => warnings agent rest
        | Raise e => warn_skipped (name p) e :: warnings agent rest
        end
      else warnings agent rest
  end.

(** The records of the eligible files whose [stat()] succeeded, in the
    order of [paths]. *)
Fixpoint records (agent : str) (paths : list Path) : list FileRecord :=
  match paths with
  | [] => []
  | p :: rest =>
      if eligible agent p then
        match stat p with
        | Ok st => (name p, st_mtime_ns st, st_size st) :: records agent rest
        | Raise _ => records agent rest
        end
      else records agent rest
  end.

Definition block_of (f : str * str) : str :=
  file_block (fst f) (slice_to MAX_FILE_CHARS (snd f)).

(** The briefing of a directory whose listing is [paths]. *)
Definition briefing (agent base_dir : str) (paths : list Path)
  : option Entry :=
  match texts agent (sorted paths) with
  | [] => None
  | files =>
      Some {| role := system;
              content := briefing_header base_dir
                         ++ join nl (map block_of files) |}
  end.

(** The signature of a directory whose listing is [paths], as the loop
    computes it (the empty one when the loop raises). *)
Definition signature_of (agent : str) (paths : list Path) : list FileRecord :=
  match signature_loop agent (sorted paths) [] with
  | Ok sig => sig
  | Raise _ => []
  end.

Definition with_prints (evs : list Event) (s : State) : State :=
  {| context := context s; _last_sig := _last_sig s;
     stdout := stdout s ++ evs |}.

(** The entries that are not the file context, in their order. *)
Definition others (ctx : list Entry) : list Entry :=
  filter (fun m => negb (is_file_context m)) ctx.

(** The file-context entries of a store. *)
Definition tagged (ctx : list Entry) : list Entry :=
  filter is_file_context ctx.

(** At most one tagged entry, and none after index 0. *)
Definition store_ok (ctx : list Entry) : Prop :=
  (List.length (tagged ctx) <= 1)%nat
  /\ forall i m, nth_error ctx i = Some m -> is_file_context m = true ->
                 i = 0%nat.

(** The number of rebuilds so far: every run of
    [build_file_context_message] that returns prints one [info] line. *)
Definition is_info (ev : Event) : bool :=
  match ev with info_loaded _ _ _ => true | _ => false end.

Definition rebuilds (s : State) : nat :=
  List.length (filter is_info (stdout s)).

(** ** Definitions used by the proofs *)

Definition name_le (p q : Path) : Prop := str_leb (name p) (name q) = true.
Definition name_lt (p q : Path) : Prop := str_lt (name p) (name q).

(** The state after the staleness check of [process], when the directory
    lists as [paths]. *)
Definition refreshed (env : Env) (paths : list Path) (s : State) : State :=
  let sig := signature_of (agent_filename env) paths in
  if sig_differs sig (_last_sig s)
  then with_last_sig (Some sig) (snd (reload_file_context env s))
  else s.

Definition user_entry (prompt : str) : Entry :=
  {| role := user; content := prompt |}.

Definition assistant_entry (output : str) : Entry :=
  {| role := assistant; content := output |}.

(** What one run of [build_file_context_message] prints. *)
Definition build_events (agent base_dir : str) (paths : list Path)
  : list Event :=
  warnings agent (sorted paths)
  ++ [info_loaded (len (map fst (texts agent (sorted paths)))) base_dir
        (map fst (texts agent (sorted paths)))].

(** The store and state after [add_initial_file_context]. *)
Definition added (env : Env) (paths : list Path) (s : State) : State :=
  let s' := with_prints (build_events (agent_filename env)
                           (dir_str (cwd env)) paths) s in
  match briefing (agent_filename env) (dir_str (cwd env)) paths with
  | Some m => with_context (m :: context s) s'
  | None => s'
  end.

(** Nothing tagged after the first entry: the invariant in the form the
    operations keep. *)
Definition pinned (ctx : list Entry) : Prop := tagged (tl ctx) = [].

(** From [ctx] to [ctx'] the invariant is kept and the other entries only
    grow at the end. *)
Definition extends (ctx ctx' : list Entry) : Prop :=
  (pinned ctx -> pinned ctx')
  /\ exists new, others ctx' = others ctx ++ new.

(** A continuation that only prints changes neither global. *)
Definition only_prints (A B : Type) (k : A -> M B) : Prop :=
  forall a env s, context (snd (k a env s)) = context s
                  /\ _last_sig (snd (k a env s)) = _last_sig s.

(** ** Example directories and sessions *)

(** A readable regular file. *)
Definition regular (file : string) (text : str) (mtime : Z) : Path :=
  {| name := lit file; is_file := Ok true;
     stat := Ok {| st_mtime_ns := mtime; st_size := len text |};
     read_text := Ok text |}.

(** A file that was listed and then deleted: [stat] and [read_text] raise. *)
Definition vanished (file : string) : Path :=
  {| name := lit file; is_file := Ok true;
     stat := Raise (OSError (lit "No such file or directory"));
     read_text := Raise (OSError (lit "No such file or directory")) |}.

(** An entry that may not be examined, a link into a directory without
    search permission for instance: [is_file()], [stat()] and [read_text]
    raise a permission error. *)
Definition denied (file : string) : Path :=
  {| name := lit file;
     is_file := Raise (OSError (lit "Permission denied"));
     stat := Raise (OSError (lit "Permission denied"));
     read_text := Raise (OSError (lit "Permission denied")) |}.

(** A subdirectory. *)
Definition subdirectory (file : string) : Path :=
  {| name := lit file; is_file := Ok false;
     stat := Ok {| st_mtime_ns := 1; st_size := 4096 |};
     read_text := Raise (OSError (lit "Is a directory")) |}.

Definition files_A : list Path :=
  [regular "notes.txt" (lit "world") 20; regular "agent.py" (lit "import os") 5;
   regular "a.md" (lit "hello") 10].

Definition files_B : list Path :=
  regular "tmp.txt" (lit "scratch") 30 :: files_A.

Definition env_of (paths : list Path) (answer : result str) : Env :=
  {| cwd := {| dir_str := lit "/work"; iterdir := Ok paths |};
     agent_filename := lit "agent.py";
     client := fun _ _ => answer |}.

Definition env_A : Env := env_of files_A (Ok (lit "fine")).
Definition env_B : Env := env_of files_B (Ok (lit "fine")).
Definition env_empty : Env := env_of [regular "agent.py" (lit "import os") 5]
                                (Ok (lit "fine")).
Definition env_down : Env :=
  env_of files_A (Raise (APIError (lit "connection error"))).

Definition long_text : str := repeat 120%N (Z.to_nat 8001).
Definition files_long : list Path :=
  [regular "big.json" long_text 7; regular "a.md" (lit "hello") 10].
Definition env_long : Env := env_of files_long (Ok (lit "fine")).

Definition files_gone : list Path :=
  [vanished "gone.yml"; regular "a.md" (lit "hello") 10].
Definition env_gone : Env := env_of files_gone (Ok (lit "fine")).

Definition files_denied : list Path :=
  [regular "a.md" (lit "hello") 10; denied "locked.yml"].
Definition env_denied : Env := env_of files_denied (Ok (lit "fine")).

Definition files_mixed : list Path :=
  [regular "notes.txt" (lit "world") 20; vanished "gone.yml";
   subdirectory "docs.md"; regular "x.bin" (lit "0") 1;
   regular "B.TXT" (lit "upper") 3; regular "agent.py" (lit "import os") 5].
Definition env_mixed : Env := env_of files_mixed (Ok (lit "fine")).

Definition files_unreadable : list Path :=
  [vanished "gone.yml"; regular "x.bin" (lit "0") 1].
Definition env_unreadable : Env := env_of files_unreadable (Ok (lit "fine")).

(** A turn in A, [/reload] in B (a file was added), a turn in A again (the
    file was deleted). *)
Definition session_reload : list (Env * str) :=
  [(env_A, lit "first"); (env_B, lit "/reload"); (env_A, lit "second")].

(** A system entry that this program did not write. *)
Definition foreign_entry : Entry :=
  {| role := system; content := lit "__FILE_CONTEXT__ is a marker" |}.

Definition state_with_foreign : State :=
  {| context := [foreign_entry; user_entry (lit "hi")];
     _last_sig := None; stdout := [] |}.

(** ** Definitions for the remaining properties *)

(** A stripped line that the loop of [main] hands to [process]: not empty
    and none of the three commands. *)
Definition is_prompt (line : str) : bool :=
  match line with
  | [] => false
  | _ :: _ =>
      negb (str_eqb line (lit "/exit") || str_eqb line (lit "/quit")
            || str_eqb line (lit "/reload"))
  end.

(** The conversation history: the entries whose role is not [system]. *)
Definition history (ctx : list Entry) : list Entry :=
  filter (fun m => negb (role_eqb (role m) system)) ctx.

(** The file-context entries that a build for [paths] puts in front of the
    store: the briefing, or nothing. *)
Definition front (env : Env) (paths : list Path) : list Entry :=
  match briefing (agent_filename env) (dir_str (cwd env)) paths with
  | Some m => [m]
  | None => []
  end.

(** A line that is a prompt, in a directory that lists, with a provider
    that answers whatever it is sent. *)
Definition answered (input : Env * str) : Prop :=
  is_prompt (strip (snd input)) = true
  /\ (exists paths, lists (cwd (fst input)) paths)
  /\ forall ctx, exists out, client (fst input) MODEL ctx = Ok out.

(** A directory whose listing raises. *)
Definition env_unlistable : Env :=
  {| cwd := {| dir_str := lit "/work";
               iterdir := Raise (OSError (lit "Permission denied")) |};
     agent_filename := lit "agent.py";
     client := fun _ _ => Ok (lit "fine") |}.

(** A store after one exchange, with its briefing in front. *)
Definition state_in_conversation : State :=
  {| context := [foreign_entry; user_entry (lit "hi");
                 assistant_entry (lit "hello")];
     _last_sig := Some (signature_of (lit "agent.py") files_A);
     stdout := [] |}.

(** Directory A after [a.md] was rewritten: a new time and size. *)
Definition files_A_touched : list Path :=
  [regular "notes.txt" (lit "world") 20; regular "agent.py" (lit "import os") 5;
   regular "a.md" (lit "hello again") 40].

(** * Strings and their order *)

Lemma str_eqb_eq (a b : str) : str_eqb a b = true <-> a = b.
Proof.
  revert b; induction a as [|c a IH]; intros [|d b]; simpl;
    try (split; [discriminate | discriminate]); try tauto.
  rewrite andb_true_iff, N.eqb_eq, IH.
  split; [intros [-> ->]; reflexivity | intros H; inversion H; auto].
Qed.

Lemma str_eqb_refl (a : str) : str_eqb a a = true.
Proof. apply str_eqb_eq; reflexivity. Qed.

Lemma str_eqb_neq (a b : str) : str_eqb a b = false <-> a <> b.
Proof.
  rewrite <- str_eqb_eq. destruct (str_eqb a b); split; intros;
    congruence.
Qed.

Lemma str_compare_eq (a b : str) : str_compare a b = Eq <-> a = b.
Proof.
  revert b; induction a as [|c a IH]; intros [|d b]; simpl;
    try (split; congruence).
  destruct (N.compare_spec c d) as [->|Hlt|Hgt].
  - rewrite IH. split; [intros ->; reflexivity | congruence].
  - split; [discriminate | intros H; inversion H; lia].
  - split; [discriminate | intros H; inversion H; lia].
Qed.

Lemma str_compare_antisym (a b : str) :
  str_compare b a = CompOpp (str_compare a b).
Proof.
  revert b; induction a as [|c a IH]; intros [|d b]; simpl; auto.
  rewrite (N.compare_antisym c d).
  destruct (N.compare c d); simpl; auto.
Qed.

Lemma str_lt_trans (a b c : str) : str_lt a b -> str_lt b c -> str_lt a c.
Proof.
  unfold str_lt. revert b c.
  induction a as [|x a IH]; intros [|y b] [|z c]; simpl; try congruence.
  destruct (N.compare_spec x y) as [->|Hxy|Hxy]; try discriminate.
  - destruct (N.compare_spec y z) as [->|Hyz|Hyz]; try discriminate; auto.
    apply IH.
  - intros _.
    destruct (N.compare_spec y z) as [->|Hyz|Hyz]; try discriminate.
    + intros _. destruct (N.compare_spec x z); auto; lia.
    + intros _. destruct (N.compare_spec x z); auto; lia.
Qed.

Lemma str_lt_irrefl (a : str) : ~ str_lt a a.
Proof.
  unfold str_lt. rewrite (proj2 (str_compare_eq a a) eq_refl). discriminate.
Qed.

Lemma str_leb_total (a b : str) : str_leb a b = true \/ str_leb b a = true.
Proof.
  unfold str_leb. rewrite (str_compare_antisym a b).
  destruct (str_compare a b); simpl; auto.
Qed.

Lemma str_leb_lt (a b : str) : str_leb a b = true -> a <> b -> str_lt a b.
Proof.
  unfold str_leb, str_lt. intros H Hne.
  destruct (str_compare a b) eqn:E; auto; try discriminate.
  apply str_compare_eq in E. contradiction.
Qed.

Lemma str_leb_false_lt (a b : str) : str_leb a b = false -> str_lt b a.
Proof.
  unfold str_leb, str_lt. rewrite (str_compare_antisym a b).
  destruct (str_compare a b); simpl; congruence.
Qed.

Lemma str_lt_leb (a b : str) : str_lt a b -> str_leb a b = true.
Proof. unfold str_leb, str_lt. intros ->. reflexivity. Qed.

Lemma str_leb_trans (a b c : str) :
  str_leb a b = true -> str_leb b c = true -> str_leb a c = true.
Proof.
  intros Hab Hbc.
  destruct (list_eq_dec N.eq_dec a b) as [->|Hne1]; auto.
  destruct (list_eq_dec N.eq_dec b c) as [->|Hne2]; auto.
  apply str_lt_leb.
  eapply str_lt_trans; eauto using str_leb_lt.
Qed.

(** * [sorted]: a permutation in name order *)

Lemma insert_path_perm (p : Path) (l : list Path) :
  Permutation (insert_path p l) (p :: l).
Proof.
  induction l as [|q l IH]; simpl; auto.
  destruct (str_leb (name p) (name q)); auto.
  rewrite IH. apply perm_swap.
Qed.

Lemma sorted_perm (l : list Path) : Permutation (sorted l) l.
Proof.
  induction l as [|p l IH]; simpl; auto.
  rewrite insert_path_perm. auto.
Qed.

Lemma sorted_In (l : list Path) (p : Path) : In p (sorted l) <-> In p l.
Proof.
  split; apply Permutation_in;
    [apply sorted_perm | apply Permutation_sym, sorted_perm].
Qed.

Lemma insert_path_sorted (p : Path) (l : list Path) :
  StronglySorted name_le l -> StronglySorted name_le (insert_path p l).
Proof.
  induction 1 as [|q l Hs IH Hq]; simpl.
  - repeat constructor.
  - destruct (str_leb (name p) (name q)) eqn:E.
    + constructor; [constructor; auto|].
      constructor; auto.
      rewrite Forall_forall in *. intros r Hr.
      eapply str_leb_trans; [exact E | apply Hq, Hr].
    + constructor; auto.
      rewrite Forall_forall in *. intros r Hr.
      apply (Permutation_in _ (insert_path_perm p l)) in Hr.
      destruct Hr as [<-|Hr]; [|apply Hq, Hr].
      apply str_lt_leb, str_leb_false_lt, E.
Qed.

Lemma sorted_by_name (l : list Path) : StronglySorted name_le (sorted l).
Proof.
  induction l as [|p l IH]; simpl; [constructor|].
  apply insert_path_sorted, IH.
Qed.

Lemma sorted_names_nodup (l : list Path) :
  NoDup (map name l) -> NoDup (map name (sorted l)).
Proof.
  apply Permutation_NoDup, Permutation_map, Permutation_sym, sorted_perm.
Qed.

(** With distinct names the order is strict. *)
Lemma strict_of_nodup (l : list Path) :
  StronglySorted name_le l -> NoDup (map name l) ->
  StronglySorted name_lt l.
Proof.
  induction 1 as [|p l Hs IH Hp]; simpl; intros Hnd; [constructor|].
  inversion Hnd as [|? ? Hnotin Hnd']; subst.
  constructor; auto.
  rewrite Forall_forall in *. intros q Hq.
  apply str_leb_lt; [apply Hp, Hq|].
  intros Heq. apply Hnotin. rewrite Heq. apply in_map, Hq.
Qed.

Lemma sorted_strict (l : list Path) :
  NoDup (map name l) -> StronglySorted name_lt (sorted l).
Proof.
  intros H. apply strict_of_nodup;
    [apply sorted_by_name | apply sorted_names_nodup, H].
Qed.

(** Two lists in strict order with the same elements are the same list. *)
Section StrictlySortedUnique.
Variable A : Type.
Variable R : A -> A -> Prop.
Hypothesis R_irrefl : forall x, ~ R x x.
Hypothesis R_asym : forall x y, R x y -> R y x -> False.

Lemma strictly_sorted_unique (l1 l2 : list A) :
  StronglySorted R l1 -> StronglySorted R l2 ->
  (forall x, In x l1 <-> In x l2) -> l1 = l2.
Proof.
  intros H1; revert l2.
  induction H1 as [|a l1 Hs1 IH Ha]; intros l2 H2 Hin.
  - destruct l2 as [|b l2]; auto.
    exfalso. apply (proj2 (Hin b)). left; reflexivity.
  - destruct H2 as [|b l2 Hs2 Hb].
    + exfalso. apply (proj1 (Hin a)). left; reflexivity.
    + rewrite Forall_forall in Ha, Hb.
      assert (a = b) as <-.
      { destruct (proj1 (Hin a) (or_introl eq_refl)) as [E|Ea]; auto.
        destruct (proj2 (Hin b) (or_introl eq_refl)) as [E|Eb]; auto.
        exfalso. apply (R_asym (Ha _ Eb) (Hb _ Ea)). }
      f_equal. apply IH; auto.
      intros x; split; intros Hx.
      * destruct (proj1 (Hin x) (or_intror Hx)) as [<-|]; auto.
        exfalso. apply (R_irrefl (Ha _ Hx)).
      * destruct (proj2 (Hin x) (or_intror Hx)) as [<-|]; auto.
        exfalso. apply (R_irrefl (Hb _ Hx)).
Qed.
End StrictlySortedUnique.

(** * The loops, in closed form *)

Lemma with_prints_nil (s : State) : with_prints [] s = s.
Proof. destruct s; unfold with_prints; simpl. rewrite app_nil_r. auto. Qed.

Lemma with_prints_app (a b : list Event) (s : State) :
  with_prints b (with_prints a s) = with_prints (a ++ b) s.
Proof. unfold with_prints; simpl. rewrite app_assoc. reflexivity. Qed.

Lemma with_print_prints (ev : Event) (s : State) :
  with_print ev s = with_prints [ev] s.
Proof. reflexivity. Qed.

Lemma all_answer_In (paths : list Path) (p : Path) :
  all_answer paths = true -> In p paths -> exists b, is_file p = Ok b.
Proof.
  unfold all_answer. rewrite forallb_forall. intros H Hp.
  specialize (H p Hp). destruct (is_file p) as [b|e]; [eauto|discriminate].
Qed.

Lemma all_answer_sorted (paths : list Path) :
  all_answer paths = true -> all_answer (sorted paths) = true.
Proof.
  unfold all_answer. rewrite !forallb_forall. intros H p Hp.
  apply H, sorted_In, Hp.
Qed.

(** Some [is_file()] raises. *)
Lemma all_answer_false (paths : list Path) :
  all_answer paths = false <-> exists p e, In p paths /\ is_file p = Raise e.
Proof.
  unfold all_answer. induction paths as [|q rest IH]; simpl.
  - split; [discriminate | intros (? & ? & [] & _)].
  - destruct (is_file q) as [b|e] eqn:E; simpl.
    + rewrite IH. split.
      * intros (p & e & Hp & H). exists p, e. auto.
      * intros (p & e & [<-|Hp] & H); [congruence|]. exists p, e. auto.
    + split; [|reflexivity]. intros _. exists q, e. auto.
Qed.

Lemma build_loop_eq (agent : str) (paths : list Path) :
  all_answer paths = true ->
  forall included file_blocks env s,
    build_loop agent paths included file_blocks env s
    = (Ok (included ++ map fst (texts agent paths),
           file_blocks ++ map block_of (texts agent paths)),
       with_prints (warnings agent paths) s).
Proof.
  induction paths as [|p rest IH]; intros Ha included file_blocks env s.
  - simpl. unfold ret. rewrite !app_nil_r, with_prints_nil. reflexivity.
  - cbn [all_answer forallb] in Ha. apply andb_true_iff in Ha.
    destruct Ha as [Hp Ha]. specialize (IH Ha).
    cbn [build_loop texts warnings]. unfold eligible, bind at 1, lift.
    destruct (is_file p) as [regular_file|e]; [|discriminate].
    destruct regular_file; simpl; [|apply IH].
    destruct (str_eqb (name p) agent); simpl; [apply IH|].
    destruct (in_extensions (lower (suffix (name p)))); simpl; [|apply IH].
    destruct (read_text p) as [text|e].
    + rewrite IH. simpl. rewrite <- !app_assoc. reflexivity.
    + unfold bind, print, modify. rewrite IH, with_print_prints.
      rewrite with_prints_app. reflexivity.
Qed.

(** Whatever its outcome, the loop of the build changes neither global. *)
Lemma build_loop_globals (agent : str) (paths : list Path) :
  forall included file_blocks env s,
    context (snd (build_loop agent paths included file_blocks env s))
    = context s
    /\ _last_sig (snd (build_loop agent paths included file_blocks env s))
       = _last_sig s.
Proof.
  induction paths as [|p rest IH]; intros included file_blocks env s.
  - simpl. auto.
  - cbn [build_loop]. unfold bind at 1 3, lift.
    destruct (is_file p) as [regular_file|e]; [|simpl; auto].
    destruct (negb regular_file); [apply IH|].
    destruct (str_eqb (name p) agent); [apply IH|].
    destruct (negb (in_extensions (lower (suffix (name p))))); [apply IH|].
    destruct (read_text p) as [text|e]; [apply IH|].
    unfold bind, print, modify.
    destruct (IH included file_blocks env (with_print (warn_skipped (name p) e) s))
      as [H1 H2].
    destruct (build_loop agent rest included file_blocks env
                (with_print (warn_skipped (name p) e) s)) as [[r|e'] s'];
      simpl in *; auto.
Qed.

Lemma build_file_context_message_eq (d : Dir) (paths : list Path) env s :
  lists d paths ->
  build_file_context_message d env s
  = (Ok (briefing (agent_filename env) (dir_str d) paths),
     with_prints
       (warnings (agent_filename env) (sorted paths)
        ++ [info_loaded
              (len (map fst (texts (agent_filename env) (sorted paths))))
              (dir_str d)
              (map fst (texts (agent_filename env) (sorted paths)))])
       s).
Proof.
  intros [Hd Ha].
  unfold build_file_context_message, bind, ask, lift. rewrite Hd.
  rewrite build_loop_eq by (apply all_answer_sorted, Ha). simpl app.
  unfold print, modify. rewrite with_print_prints, with_prints_app.
  unfold briefing.
  destruct (texts (agent_filename env) (sorted paths)); reflexivity.
Qed.

Lemma build_file_context_message_raise (d : Dir) (e : exn) env s :
  iterdir d = Raise e ->
  build_file_context_message d env s = (Raise e, s).
Proof.
  intros Hd. unfold build_file_context_message, bind, ask, lift.
  rewrite Hd. reflexivity.
Qed.

(** Whatever its outcome, a build changes neither global, and a briefing
    it returns passes the test of [reload_file_context]. *)
Lemma startswith_app (p r : str) : startswith (p ++ r) p = true.
Proof.
  induction p as [|c p IH]; cbn [startswith app]; auto.
  rewrite N.eqb_refl, IH. reflexivity.
Qed.

Lemma build_file_context_message_globals (d : Dir) env s :
  context (snd (build_file_context_message d env s)) = context s
  /\ _last_sig (snd (build_file_context_message d env s)) = _last_sig s.
Proof.
  unfold build_file_context_message, bind, ask, lift.
  destruct (iterdir d) as [paths|e]; [|simpl; auto].
  destruct (build_loop_globals (agent_filename env) (sorted paths) [] []
              env s) as [H1 H2].
  destruct (build_loop (agent_filename env) (sorted paths) [] [] env s)
    as [[[included file_blocks]|e] s']; [|simpl in *; auto].
  unfold print, modify, ret. cbn [snd] in H1, H2.
  destruct file_blocks; cbn [snd context _last_sig with_print]; auto.
Qed.

Lemma build_file_context_message_tagged (d : Dir) env s (m : Entry) :
  fst (build_file_context_message d env s) = Ok (Some m) ->
  is_file_context m = true.
Proof.
  unfold build_file_context_message, bind, ask, lift.
  destruct (iterdir d) as [paths|e]; [|discriminate].
  destruct (build_loop (agent_filename env) (sorted paths) [] [] env s)
    as [[[included file_blocks]|e] s']; [|discriminate].
  unfold print, modify, ret.
  destruct file_blocks as [|b blocks]; cbn [fst]; [discriminate|].
  intros H. apply (f_equal (fun r => match r with
                                     | Ok (Some x) => x
                                     | _ => m
                                     end)) in H.
  subst m. unfold is_file_context, briefing_header.
  cbn [role content role_eqb andb].
  rewrite <- !app_assoc. apply startswith_app.
Qed.

Lemma signature_loop_ok (agent : str) (paths : list Path) :
  all_answer paths = true ->
  forall sig, signature_loop agent paths sig
              = Ok (sig ++ records agent paths).
Proof.
  induction paths as [|p rest IH]; intros Ha sig.
  - simpl. rewrite app_nil_r. reflexivity.
  - cbn [all_answer forallb] in Ha. apply andb_true_iff in Ha.
    destruct Ha as [Hp Ha]. specialize (IH Ha).
    cbn [signature_loop records]. unfold eligible.
    destruct (is_file p) as [regular_file|e]; [|discriminate].
    destruct (regular_file && negb (str_eqb (name p) agent)
              && in_extensions (lower (suffix (name p)))); auto.
    destruct (stat p) as [st|e]; auto.
    rewrite IH, <- app_assoc. reflexivity.
Qed.

(** An [is_file()] that raises ends the loop with an exception. *)
Lemma signature_loop_raises (agent : str) (paths : list Path) :
  all_answer paths = false ->
  forall sig, exists e, signature_loop agent paths sig = Raise e.
Proof.
  induction paths as [|p rest IH]; intros Ha sig; [discriminate|].
  cbn [all_answer forallb] in Ha. cbn [signature_loop].
  destruct (is_file p) as [regular_file|e]; [|eauto].
  simpl in Ha.
  destruct (regular_file && negb (str_eqb (name p) agent)
            && in_extensions (lower (suffix (name p)))); auto.
  destruct (stat p) as [st|e]; auto.
Qed.

Lemma signature_of_records (agent : str) (paths : list Path) :
  all_answer paths = true ->
  signature_of agent paths = records agent (sorted paths).
Proof.
  intros Ha. unfold signature_of.
  rewrite signature_loop_ok by (apply all_answer_sorted, Ha). reflexivity.
Qed.

Lemma records_In (agent : str) (paths : list Path) (r : FileRecord) :
  In r (records agent paths)
  <-> exists p st, In p paths /\ eligible agent p = true /\ stat p = Ok st
                   /\ r = (name p, st_mtime_ns st, st_size st).
Proof.
  induction paths as [|p rest IH]; simpl.
  - split; [tauto | intros (? & ? & [] & _)].
  - destruct (eligible agent p) eqn:E.
    + destruct (stat p) as [st|e] eqn:Es.
      * simpl. rewrite IH. split.
        -- intros [<-|(q & st' & Hq & H)].
           ++ exists p, st. auto.
           ++ exists q, st'. tauto.
        -- intros (q & st' & [<-|Hq] & He & Hst & ->).
           ++ left. congruence.
           ++ right. exists q, st'. auto.
      * rewrite IH. split.
        -- intros (q & st' & Hq & H). exists q, st'. tauto.
        -- intros (q & st' & [<-|Hq] & He & Hst & ->); [congruence|].
           exists q, st'. auto.
    + rewrite IH. split.
      * intros (q & st' & Hq & H). exists q, st'. tauto.
      * intros (q & st' & [<-|Hq] & He & Hst & ->); [congruence|].
        exists q, st'. auto.
Qed.

(** The names of the records follow the order of the paths. *)
Lemma records_sorted (agent : str) (paths : list Path) :
  StronglySorted name_le paths ->
  StronglySorted (fun a b : FileRecord =>
                    str_leb (fst (fst a)) (fst (fst b)) = true)
                 (records agent paths).
Proof.
  induction 1 as [|p rest Hs IH Hp]; simpl; [constructor|].
  destruct (eligible agent p); auto.
  destruct (stat p) as [st|e]; auto.
  constructor; auto.
  rewrite Forall_forall in *. intros r Hr.
  apply records_In in Hr. destruct Hr as (q & st' & Hq & _ & _ & ->).
  simpl. apply Hp, Hq.
Qed.

(** With distinct names the records are in strict order: none twice. *)
Lemma records_strict (agent : str) (paths : list Path) :
  StronglySorted name_lt paths ->
  StronglySorted (fun a b : FileRecord => str_lt (fst (fst a)) (fst (fst b)))
                 (records agent paths).
Proof.
  induction 1 as [|p rest Hs IH Hp]; simpl; [constructor|].
  destruct (eligible agent p); auto.
  destruct (stat p) as [st|e]; auto.
  constructor; auto.
  rewrite Forall_forall in *. intros r Hr.
  apply records_In in Hr. destruct Hr as (q & st' & Hq & _ & _ & ->).
  simpl. apply Hp, Hq.
Qed.

Lemma signature_of_In (agent : str) (paths : list Path) (f : str)
    (mt sz : Z) :
  all_answer paths = true ->
  In (f, mt, sz) (signature_of agent paths)
  <-> exists p, In p paths /\ name p = f /\ eligible agent p = true
                /\ stat p = Ok {| st_mtime_ns := mt; st_size := sz |}.
Proof.
  intros Ha. rewrite signature_of_records by exact Ha.
  rewrite records_In. split.
  - intros (p & st & Hp & He & Hst & Hr). inversion Hr; subst.
    exists p. rewrite sorted_In in Hp. destruct st; auto.
  - intros (p & Hp & <- & He & Hst).
    exists p, {| st_mtime_ns := mt; st_size := sz |}.
    rewrite sorted_In. auto.
Qed.

Lemma eligible_iff (agent : str) (p : Path) :
  eligible agent p = true
  <-> is_file p = Ok true /\ name p <> agent
      /\ In (lower (suffix (name p))) INCLUDE_EXTENSIONS.
Proof.
  unfold eligible, in_extensions. split.
  - destruct (is_file p) as [b|e]; [|discriminate].
    rewrite !andb_true_iff, negb_true_iff, str_eqb_neq.
    intros [[-> Hn] Hx]. apply existsb_exists in Hx.
    destruct Hx as (x & Hx & Hxe). apply str_eqb_eq in Hxe.
    rewrite Hxe. auto.
  - intros (-> & Hn & Hx).
    rewrite (proj2 (str_eqb_neq _ _) Hn). cbn [andb negb].
    apply existsb_exists. exists (lower (suffix (name p))).
    split; auto. apply str_eqb_refl.
Qed.

Lemma same_name_same_path (paths : list Path) (p q : Path) :
  NoDup (map name paths) -> In p paths -> In q paths -> name q = name p ->
  q = p.
Proof.
  induction paths as [|x paths IH]; intros Hnd Hp Hq Hname; [destruct Hp|].
  simpl in Hnd. inversion Hnd as [|? ? Hnotin Hnd']; subst.
  destruct Hp as [->|Hp], Hq as [->|Hq]; auto.
  - exfalso. apply Hnotin. rewrite <- Hname. apply in_map, Hq.
  - exfalso. apply Hnotin. rewrite Hname. apply in_map, Hp.
Qed.

Lemma directory_signature_eq (d : Dir) (paths : list Path) env s :
  lists d paths ->
  directory_signature d env s = (Ok (signature_of (agent_filename env) paths), s).
Proof.
  intros [Hd Ha]. unfold directory_signature, bind, ask, lift. rewrite Hd.
  unfold signature_of.
  rewrite signature_loop_ok by (apply all_answer_sorted, Ha). reflexivity.
Qed.

Lemma directory_signature_raise (d : Dir) (e : exn) env s :
  iterdir d = Raise e -> directory_signature d env s = (Raise e, s).
Proof.
  intros Hd. unfold directory_signature, bind, ask, lift. rewrite Hd.
  reflexivity.
Qed.

(** A signature is computed exactly for the directories that list; for the
    others the call raises and leaves the state as it was. *)
Lemma directory_signature_cases (d : Dir) env s :
  (exists paths, lists d paths)
  \/ (forall paths, ~ lists d paths)
     /\ exists e, directory_signature d env s = (Raise e, s).
Proof.
  destruct (iterdir d) as [paths|e] eqn:Hd.
  - destruct (all_answer paths) eqn:Ha.
    + left. exists paths. split; auto.
    + right. split.
      * intros paths' [Hd' Ha']. congruence.
      * assert (all_answer (sorted paths) = false) as Hs.
        { destruct (all_answer (sorted paths)) eqn:E; auto.
          apply all_answer_false in Ha. destruct Ha as (p & e & Hp & He).
          destruct (@all_answer_In (sorted paths) p E
                      (proj2 (sorted_In paths p) Hp)).
          congruence. }
        destruct (@signature_loop_raises (agent_filename env) _ Hs [])
          as [e He].
        exists e. unfold directory_signature, bind, ask, lift.
        rewrite Hd, He. reflexivity.
  - right. split.
    + intros paths' [Hd' _]. congruence.
    + exists e. apply directory_signature_raise, Hd.
Qed.

Lemma texts_In (agent : str) (paths : list Path) (f t : str) :
  In (f, t) (texts agent paths)
  <-> exists p, In p paths /\ name p = f /\ eligible agent p = true
                /\ read_text p = Ok t.
Proof.
  induction paths as [|p rest IH]; simpl.
  - split; [tauto | intros (? & [] & _)].
  - destruct (eligible agent p) eqn:E.
    + destruct (read_text p) as [text|e] eqn:Er.
      * simpl. rewrite IH. split.
        -- intros [H|(q & Hq & H)].
           ++ inversion H; subst. exists p. auto.
           ++ exists q. tauto.
        -- intros (q & [<-|Hq] & Hn & He & Hr).
           ++ left. congruence.
           ++ right. exists q. auto.
      * rewrite IH. split.
        -- intros (q & Hq & H). exists q. tauto.
        -- intros (q & [<-|Hq] & Hn & He & Hr); [congruence|].
           exists q. auto.
    + rewrite IH. split.
      * intros (q & Hq & H). exists q. tauto.
      * intros (q & [<-|Hq] & Hn & He & Hr); [congruence|].
        exists q. auto.
Qed.

Lemma texts_sorted (agent : str) (paths : list Path) :
  StronglySorted name_lt paths ->
  StronglySorted (fun a b : str * str => str_lt (fst a) (fst b))
                 (texts agent paths).
Proof.
  induction 1 as [|p rest Hs IH Hp]; simpl; [constructor|].
  destruct (eligible agent p); auto.
  destruct (read_text p) as [text|e]; auto.
  constructor; auto.
  rewrite Forall_forall in *. intros [f t] Hr.
  apply texts_In in Hr. destruct Hr as (q & Hq & <- & _).
  simpl. apply Hp, Hq.
Qed.

(** * The store operations *)

(** Running the monad by its definitions. *)
Ltac run_monad :=
  repeat (unfold bind, ret, get, ask, lift, modify, set_context,
            set_last_sig, print, context_append, call, project_dir;
          cbn beta iota).

Lemma briefing_tagged (agent base_dir : str) (paths : list Path) (m : Entry) :
  briefing agent base_dir paths = Some m -> is_file_context m = true.
Proof.
  unfold briefing. destruct (texts agent (sorted paths)); [discriminate|].
  intros H. apply (f_equal (fun o => match o with Some x => x | None => m end))
    in H. subst m.
  unfold is_file_context, briefing_header. cbn [role content role_eqb andb].
  rewrite <- !app_assoc. apply startswith_app.
Qed.

Lemma warnings_no_info (agent : str) (paths : list Path) :
  filter is_info (warnings agent paths) = [].
Proof.
  induction paths as [|p rest IH]; simpl; auto.
  destruct (eligible agent p); auto.
  destruct (read_text p); auto.
Qed.

Lemma build_events_info (agent base_dir : str) (paths : list Path) :
  List.length (filter is_info (build_events agent base_dir paths)) = 1%nat.
Proof.
  unfold build_events. rewrite filter_app, warnings_no_info. reflexivity.
Qed.

Lemma add_initial_file_context_eq env s paths :
  lists (cwd env) paths ->
  add_initial_file_context env s = (Ok tt, added env paths s).
Proof.
  intros Hd. unfold add_initial_file_context, project_dir, bind, ask, ret.
  erewrite build_file_context_message_eq by exact Hd. unfold added, build_events.
  destruct (briefing _ _ _); reflexivity.
Qed.

Lemma add_initial_file_context_raise env s e :
  iterdir (cwd env) = Raise e ->
  add_initial_file_context env s = (Raise e, s).
Proof.
  intros Hd. unfold add_initial_file_context, project_dir, bind, ask, ret.
  erewrite build_file_context_message_raise by exact Hd. reflexivity.
Qed.

Lemma reload_file_context_eq env s paths :
  lists (cwd env) paths ->
  reload_file_context env s
  = (Ok tt, added env paths (with_context (others (context s)) s)).
Proof.
  intros Hd. unfold reload_file_context, bind, get, set_context, modify.
  apply add_initial_file_context_eq, Hd.
Qed.

Lemma reload_file_context_raise env s e :
  iterdir (cwd env) = Raise e ->
  reload_file_context env s = (Raise e, with_context (others (context s)) s).
Proof.
  intros Hd. unfold reload_file_context, bind, get, set_context, modify.
  apply add_initial_file_context_raise, Hd.
Qed.

(** The store after [add_initial_file_context] and after a reload,
    whatever the outcome of the build. *)
Lemma add_initial_file_context_state env s :
  context (snd (add_initial_file_context env s))
  = match fst (build_file_context_message (cwd env) env s) with
    | Ok (Some m) => m :: context s
    | _ => context s
    end
  /\ _last_sig (snd (add_initial_file_context env s)) = _last_sig s.
Proof.
  destruct (build_file_context_message_globals (cwd env) env s) as [H1 H2].
  unfold add_initial_file_context, project_dir, bind, ask, ret.
  destruct (build_file_context_message (cwd env) env s) as [[[m|]|e] s'];
    cbn [fst snd] in *; run_monad; cbn [snd context _last_sig with_context];
    auto.
  rewrite H1. auto.
Qed.

Lemma reload_file_context_state env s :
  context (snd (reload_file_context env s))
  = match fst (build_file_context_message (cwd env) env
                 (with_context (others (context s)) s)) with
    | Ok (Some m) => m :: others (context s)
    | _ => others (context s)
    end
  /\ _last_sig (snd (reload_file_context env s)) = _last_sig s.
Proof.
  unfold reload_file_context, bind at 1 2 3 4, get, set_context, modify.
  apply (add_initial_file_context_state env
           (with_context (others (context s)) s)).
Qed.

Lemma added_last_sig env paths s : _last_sig (added env paths s) = _last_sig s.
Proof. unfold added. destruct (briefing _ _ _); reflexivity. Qed.

Lemma added_context env paths s :
  context (added env paths s)
  = match briefing (agent_filename env) (dir_str (cwd env)) paths with
    | Some m => m :: context s
    | None => context s
    end.
Proof. unfold added. destruct (briefing _ _ _); reflexivity. Qed.

Lemma added_rebuilds env paths s : rebuilds (added env paths s) = S (rebuilds s).
Proof.
  unfold added, rebuilds.
  assert (stdout (match briefing (agent_filename env) (dir_str (cwd env)) paths
                  with
                  | Some m => with_context (m :: context s)
                                (with_prints (build_events (agent_filename env)
                                   (dir_str (cwd env)) paths) s)
                  | None => with_prints (build_events (agent_filename env)
                                   (dir_str (cwd env)) paths) s
                  end)
          = stdout s ++ build_events (agent_filename env)
                          (dir_str (cwd env)) paths) as ->
    by (destruct (briefing _ _ _); reflexivity).
  rewrite filter_app, length_app, build_events_info. lia.
Qed.

(** The closed form of [process]. *)
Lemma process_eq env s prompt paths :
  lists (cwd env) paths ->
  let s1 := refreshed env paths s in
  let s2 := with_context (context s1 ++ [user_entry prompt]) s1 in
  process prompt env s
  = match client env MODEL (context s2) with
    | Ok output =>
        (Ok output,
         with_context (context s2 ++ [assistant_entry output]) s2)
    | Raise e => (Raise e, s2)
    end.
Proof.
  intros Hd. cbv zeta.
  unfold process, project_dir, bind at 1 2 3, ask, ret.
  erewrite directory_signature_eq by exact Hd.
  unfold bind at 1, get.
  unfold refreshed.
  fold (signature_of (agent_filename env) paths).
  destruct (sig_differs (signature_of (agent_filename env) paths)
              (_last_sig s)).
  - unfold bind at 1 2. erewrite reload_file_context_eq by exact Hd.
    unfold snd. run_monad.
    destruct (client env _ _); reflexivity.
  - run_monad.
    destruct (client env _ _); reflexivity.
Qed.

(** When the signature cannot be computed the turn raises at once. *)
Lemma process_no_signature env s prompt e :
  directory_signature (cwd env) env s = (Raise e, s) ->
  process prompt env s = (Raise e, s).
Proof.
  intros Hd. unfold process, project_dir, bind at 1 2 3, ask, ret.
  rewrite Hd. reflexivity.
Qed.

Lemma process_raise env s prompt e :
  iterdir (cwd env) = Raise e -> process prompt env s = (Raise e, s).
Proof.
  intros Hd. apply process_no_signature, directory_signature_raise, Hd.
Qed.

(** * The store invariant, operation by operation *)

Lemma tagged_nil_In (ctx : list Entry) :
  tagged ctx = [] <-> forall m, In m ctx -> is_file_context m = false.
Proof.
  unfold tagged. induction ctx as [|x ctx IH]; simpl.
  - split; [intros _ m [] | reflexivity].
  - destruct (is_file_context x) eqn:E.
    + split; [discriminate|]. intros H.
      specialize (H x (or_introl eq_refl)). congruence.
    + rewrite IH. split.
      * intros H m [<-|Hm]; auto.
      * intros H m Hm. apply H. right. exact Hm.
Qed.

Lemma pinned_store_ok (ctx : list Entry) : pinned ctx -> store_ok ctx.
Proof.
  unfold pinned, store_ok. intros H. split.
  - destruct ctx as [|x ctx]; simpl in *; [lia|].
    unfold tagged in *. simpl. destruct (is_file_context x); simpl;
      rewrite H; simpl; lia.
  - intros [|i] m Hn Hm; [reflexivity|]. exfalso.
    destruct ctx as [|x ctx]; simpl in *; [discriminate|].
    apply nth_error_In in Hn.
    rewrite (proj1 (tagged_nil_In ctx) H m Hn) in Hm. discriminate.
Qed.

Lemma store_ok_pinned (ctx : list Entry) : store_ok ctx -> pinned ctx.
Proof.
  unfold pinned, store_ok. intros [_ H].
  apply tagged_nil_In. intros m Hm.
  destruct ctx as [|x ctx]; simpl in *; [contradiction|].
  apply In_nth_error in Hm. destruct Hm as [i Hi].
  destruct (is_file_context m) eqn:E; auto.
  specialize (H (S i) m Hi E). discriminate.
Qed.

Lemma tagged_others (ctx : list Entry) : tagged (others ctx) = [].
Proof.
  apply tagged_nil_In. intros m Hm. unfold others in Hm.
  apply filter_In in Hm. destruct Hm as [_ Hm].
  destruct (is_file_context m); auto; discriminate.
Qed.

Lemma others_others (ctx : list Entry) : others (others ctx) = others ctx.
Proof.
  unfold others. induction ctx as [|x ctx IH]; simpl; auto.
  destruct (is_file_context x) eqn:E; simpl; auto.
  rewrite E. simpl. congruence.
Qed.

Lemma others_app (a b : list Entry) : others (a ++ b) = others a ++ others b.
Proof. apply filter_app. Qed.

Lemma tagged_app (a b : list Entry) : tagged (a ++ b) = tagged a ++ tagged b.
Proof. apply filter_app. Qed.

Lemma pinned_of_untagged (ctx : list Entry) : tagged ctx = [] -> pinned ctx.
Proof.
  unfold pinned. rewrite !tagged_nil_In. intros H m Hm. apply H.
  destruct ctx; simpl in *; auto.
Qed.

Lemma pinned_cons (m : Entry) (ctx : list Entry) :
  tagged ctx = [] -> pinned (m :: ctx).
Proof. unfold pinned. simpl. auto. Qed.

Lemma pinned_snoc (ctx : list Entry) (x : Entry) :
  is_file_context x = false -> pinned ctx -> pinned (ctx ++ [x]).
Proof.
  unfold pinned. intros Hx H. destruct ctx as [|m ctx]; simpl in *.
  - reflexivity.
  - rewrite tagged_app, H. unfold tagged. simpl. rewrite Hx. reflexivity.
Qed.

Lemma others_snoc (ctx : list Entry) (x : Entry) :
  is_file_context x = false -> others (ctx ++ [x]) = others ctx ++ [x].
Proof.
  intros Hx. rewrite others_app. unfold others at 2. simpl. rewrite Hx.
  reflexivity.
Qed.

Lemma extends_refl (ctx : list Entry) : extends ctx ctx.
Proof. split; auto. exists []. rewrite app_nil_r. reflexivity. Qed.

Lemma extends_trans (a b c : list Entry) :
  extends a b -> extends b c -> extends a c.
Proof.
  intros [H1 [n1 E1]] [H2 [n2 E2]]. split; auto.
  exists (n1 ++ n2). rewrite E2, E1, app_assoc. reflexivity.
Qed.

Lemma extends_snoc (ctx : list Entry) (x : Entry) :
  is_file_context x = false -> extends ctx (ctx ++ [x]).
Proof.
  intros Hx. split.
  - apply pinned_snoc, Hx.
  - exists [x]. apply others_snoc, Hx.
Qed.

(** After a reload the store is pinned whatever it was before, and its
    other entries are those of before. *)
Lemma reload_file_context_store env s :
  let ctx' := context (snd (reload_file_context env s)) in
  pinned ctx' /\ others ctx' = others (context s).
Proof.
  cbv zeta. rewrite (proj1 (reload_file_context_state env s)).
  destruct (fst (build_file_context_message (cwd env) env
                   (with_context (others (context s)) s)))
    as [[m|]|e] eqn:Hb.
  - split; [apply pinned_cons, tagged_others|].
    unfold others at 1. cbn [filter].
    rewrite (build_file_context_message_tagged _ _ _ Hb). cbn [negb].
    apply others_others.
  - split; [apply pinned_of_untagged, tagged_others | apply others_others].
  - split; [apply pinned_of_untagged, tagged_others | apply others_others].
Qed.

Lemma reload_file_context_last_sig env s :
  _last_sig (snd (reload_file_context env s)) = _last_sig s.
Proof.
  apply (proj2 (reload_file_context_state env s)).
Qed.

Lemma reload_file_context_extends env s :
  extends (context s) (context (snd (reload_file_context env s))).
Proof.
  destruct (reload_file_context_store env s) as [Hp Ho]. split; auto.
  exists []. rewrite app_nil_r. exact Ho.
Qed.

Lemma refreshed_extends env paths s :
  extends (context s) (context (refreshed env paths s)).
Proof.
  unfold refreshed.
  destruct (sig_differs _ _); [|apply extends_refl].
  apply reload_file_context_extends.
Qed.

Lemma process_extends env s prompt :
  extends (context s) (context (snd (process prompt env s))).
Proof.
  destruct (directory_signature_cases (cwd env) env s)
    as [[paths Hd]|[_ [e He]]].
  - rewrite (process_eq env s prompt Hd). cbv zeta.
    eapply extends_trans; [apply (refreshed_extends env paths s)|].
    destruct (client env _ _) as [output|e]; simpl snd; simpl context.
    + eapply extends_trans; apply extends_snoc; reflexivity.
    + apply extends_snoc; reflexivity.
  - rewrite (@process_no_signature env s prompt e He). apply extends_refl.
Qed.

Lemma then_print_state (A B : Type) (m : M A) (k : A -> M B) env s :
  only_prints k ->
  context (snd (bind m k env s)) = context (snd (m env s))
  /\ _last_sig (snd (bind m k env s)) = _last_sig (snd (m env s)).
Proof.
  intros Hk. unfold bind.
  destruct (m env s) as [[a|e] s1]; simpl; auto.
Qed.

(** Drops a printing continuation from the goal. *)
Ltac skip_print :=
  match goal with
  | |- context [snd (bind ?m ?k ?env ?s)] =>
      rewrite (proj1 (@then_print_state _ _ m k env s
                        ltac:(intros ? ? ?; run_monad; simpl; auto)))
  end.

Lemma repl_body_extends raw env s :
  extends (context s) (context (snd (repl_body raw env s))).
Proof.
  unfold repl_body. destruct (strip raw) as [|c line] eqn:E.
  - apply extends_refl.
  - destruct (_ || _).
    + run_monad. simpl. apply extends_refl.
    + destruct (str_eqb _ _).
      * skip_print. apply reload_file_context_extends.
      * skip_print. apply process_extends.
Qed.

Lemma repl_extends inputs :
  forall s, extends (context s) (context (snd (repl inputs s))).
Proof.
  induction inputs as [|[env raw] rest IH]; intros s; cbn [repl].
  - apply extends_refl.
  - change (context s) with (context (with_print (asked (lit "> ")) s)).
    pose proof (repl_body_extends raw env
                  (with_print (asked (lit "> ")) s)) as H.
    destruct (repl_body raw env (with_print (asked (lit "> ")) s))
      as [[[|]|e] s1]; cbn [snd] in *; auto.
    eapply extends_trans; [exact H | apply IH].
Qed.

(** Reading more input only continues the run. *)
Lemma repl_more inputs more :
  forall s, extends (context (snd (repl inputs s)))
                    (context (snd (repl (inputs ++ more) s))).
Proof.
  induction inputs as [|[env raw] rest IH]; intros s.
  - cbn [app]. change (context (snd (repl [] s))) with (context s).
    apply (repl_extends more s).
  - cbn [app repl].
    destruct (repl_body raw env (with_print (asked (lit "> ")) s))
      as [[[|]|e] s1]; cbn [snd]; auto using extends_refl.
Qed.

Lemma add_initial_file_context_fresh env :
  pinned (context (snd (add_initial_file_context env initial_state)))
  /\ others (context (snd (add_initial_file_context env initial_state))) = [].
Proof.
  rewrite (proj1 (add_initial_file_context_state env initial_state)).
  destruct (fst (build_file_context_message (cwd env) env initial_state))
    as [[m|]|e] eqn:Hb; cbn [context initial_state].
  - split; [reflexivity|]. unfold others. cbn [filter].
    rewrite (build_file_context_message_tagged _ _ _ Hb). reflexivity.
  - split; reflexivity.
  - split; reflexivity.
Qed.

Lemma main_pinned argv env0 env1 inputs :
  pinned (context (snd (main argv env0 env1 inputs))).
Proof.
  unfold main.
  destruct (add_initial_file_context_fresh env0) as [Hp _].
  destruct (add_initial_file_context env0 initial_state) as [[[]|e] s0];
    simpl in Hp; simpl snd; auto.
  destruct (1 <? len argv).
  - skip_print.
    apply (process_extends env1 s0 _), Hp.
  - apply (repl_extends inputs s0), Hp.
Qed.

(** * The staleness check *)

Lemma record_eqb_eq (a b : FileRecord) : record_eqb a b = true <-> a = b.
Proof.
  destruct a as [[n1 m1] z1], b as [[n2 m2] z2]. unfold record_eqb.
  rewrite !andb_true_iff, str_eqb_eq, !Z.eqb_eq.
  split; [intros [[-> ->] ->]; reflexivity | intros H; inversion H; auto].
Qed.

Lemma sig_eqb_eq (a b : list FileRecord) : sig_eqb a b = true <-> a = b.
Proof.
  revert b; induction a as [|x a IH]; intros [|y b]; simpl;
    try (split; congruence).
  rewrite andb_true_iff, record_eqb_eq, IH.
  split; [intros [-> ->]; reflexivity | intros H; inversion H; auto].
Qed.

Lemma sig_differs_false (sig : list FileRecord) last :
  sig_differs sig last = false <-> last = Some sig.
Proof.
  destruct last as [l|]; simpl.
  - rewrite negb_false_iff, sig_eqb_eq. split; congruence.
  - split; discriminate.
Qed.

Lemma sig_differs_true (sig : list FileRecord) last :
  sig_differs sig last = true <-> last <> Some sig.
Proof.
  rewrite <- sig_differs_false. destruct (sig_differs sig last);
    split; congruence.
Qed.

Lemma refreshed_last_sig env paths s :
  _last_sig (refreshed env paths s)
  = Some (signature_of (agent_filename env) paths).
Proof.
  unfold refreshed.
  destruct (sig_differs _ _) eqn:E; [reflexivity|].
  apply sig_differs_false, E.
Qed.

Lemma refreshed_rebuilds env paths s :
  lists (cwd env) paths ->
  rebuilds (refreshed env paths s)
  = if sig_differs (signature_of (agent_filename env) paths) (_last_sig s)
    then S (rebuilds s) else rebuilds s.
Proof.
  intros Hd. unfold refreshed. destruct (sig_differs _ _); auto.
  erewrite reload_file_context_eq by exact Hd. simpl snd.
  change (rebuilds (with_last_sig ?g ?x)) with (rebuilds x).
  rewrite added_rebuilds. reflexivity.
Qed.

Lemma process_state env s prompt paths :
  lists (cwd env) paths ->
  let s' := snd (process prompt env s) in
  _last_sig s' = _last_sig (refreshed env paths s)
  /\ stdout s' = stdout (refreshed env paths s)
  /\ exists new, context s' = context (refreshed env paths s) ++ new.
Proof.
  intros Hd. cbv zeta. rewrite (process_eq env s prompt Hd). cbv zeta.
  destruct (client env _ _) as [output|e]; simpl.
  - repeat split. eexists. rewrite <- app_assoc. reflexivity.
  - repeat split. eexists. reflexivity.
Qed.

Lemma reloads_last_sig (between : list Env) :
  forall s,
    _last_sig (fold_left (fun st e => snd (reload_file_context e st))
                 between s)
    = _last_sig s.
Proof.
  induction between as [|e rest IH]; intros s; simpl; auto.
  rewrite IH. apply reload_file_context_last_sig.
Qed.

(** * The text of the briefing *)

Lemma join_contains (sep b : str) (blocks : list str) :
  In b blocks -> exists before after, join sep blocks = before ++ b ++ after.
Proof.
  induction blocks as [|x blocks IH]; [intros []|].
  intros [<-|Hb].
  - exists []. destruct blocks as [|y blocks].
    + exists []. simpl. rewrite app_nil_r. reflexivity.
    + exists (sep ++ join sep (y :: blocks)). reflexivity.
  - destruct (IH Hb) as (before & after & E).
    destruct blocks as [|y blocks]; [destruct Hb|].
    exists (x ++ sep ++ before), after.
    change (join sep (x :: y :: blocks))
      with (x ++ sep ++ join sep (y :: blocks)).
    rewrite E, <- !app_assoc. reflexivity.
Qed.

Lemma texts_none (agent : str) (paths : list Path) :
  (forall p, In p paths -> eligible agent p = true ->
             exists e, read_text p = Raise e) ->
  texts agent paths = [].
Proof.
  intros H. destruct (texts agent paths) as [|[f t] l] eqn:E; auto.
  assert (In (f, t) (texts agent paths)) as Hin by (rewrite E; left; auto).
  apply texts_In in Hin. destruct Hin as (p & Hp & _ & He & Hr).
  destruct (H p Hp He) as [e He']. congruence.
Qed.

Lemma texts_some (agent : str) (paths : list Path) (p : Path) (t : str) :
  In p paths -> eligible agent p = true -> read_text p = Ok t ->
  In (name p, t) (texts agent (sorted paths)).
Proof.
  intros Hp He Hr. apply texts_In. exists p.
  rewrite sorted_In. auto.
Qed.

Lemma texts_sorted_In (agent : str) (paths : list Path) (f t : str) :
  In (f, t) (texts agent (sorted paths))
  <-> exists p, In p paths /\ name p = f /\ eligible agent p = true
                /\ read_text p = Ok t.
Proof.
  rewrite texts_In. split; intros (p & Hp & H); exists p;
    [rewrite <- sorted_In | rewrite sorted_In]; auto.
Qed.

(** * The claims *)

(** C2.  Over every run of [main] (the initial build, then one turn or any
    lines of the loop, each in its own environment, with or without
    failures) the store has at most one tagged file-context entry and none
    after index 0; and when the run goes on with more input, the entries
    that are not the file context stay as they are, in their order, new
    ones coming only at the end. *)
Theorem store_invariant (argv : list str) (env0 env1 : Env)
    (inputs more : list (Env * str)) :
  let ctx := context (snd (main argv env0 env1 inputs)) in
  let ctx' := context (snd (main argv env0 env1 (inputs ++ more))) in
  store_ok ctx /\ exists new, others ctx' = others ctx ++ new.
Proof.
  cbv zeta. split.
  - apply pinned_store_ok, main_pinned.
  - unfold main.
    destruct (add_initial_file_context env0 initial_state) as [[[]|e] s0];
      simpl snd.
    + destruct (1 <? len argv).
      * exists []. rewrite app_nil_r. reflexivity.
      * apply (repl_more inputs more s0).
    + exists []. rewrite app_nil_r. reflexivity.
Qed.

(** C3.  Two processed turns, with any explicit reloads between them: the
    first turn of a process ([_last_sig] is [None]) rebuilds once and
    records its snapshot; the second turn rebuilds nothing and leaves the
    store's existing entries alone when its snapshot equals that of the first
    turn, and rebuilds exactly once and records the fresh snapshot when it
    differs. *)
Theorem staleness_gating (env1 env2 : Env) (p1 p2 : str) (s : State)
    (paths1 paths2 : list Path) (between : list Env) :
  lists (cwd env1) paths1 ->
  lists (cwd env2) paths2 ->
  let sig1 := signature_of (agent_filename env1) paths1 in
  let sig2 := signature_of (agent_filename env2) paths2 in
  let s1 := snd (process p1 env1 s) in
  let s1' := fold_left (fun st e => snd (reload_file_context e st))
               between s1 in
  let s2 := snd (process p2 env2 s1') in
  (_last_sig s = None ->
   rebuilds s1 = S (rebuilds s) /\ _last_sig s1 = Some sig1)
  /\ (sig2 = sig1 ->
      rebuilds s2 = rebuilds s1'
      /\ exists new, context s2 = context s1' ++ new)
  /\ (sig2 <> sig1 ->
      rebuilds s2 = S (rebuilds s1') /\ _last_sig s2 = Some sig2).
Proof.
  intros H1 H2. cbv zeta.
  set (s1 := snd (process p1 env1 s)).
  set (s1' := fold_left _ between s1).
  destruct (process_state env1 s p1 H1) as (L1 & O1 & _). fold s1 in L1, O1.
  destruct (process_state env2 s1' p2 H2) as (L2 & O2 & new & C2).
  assert (_last_sig s1' = Some (signature_of (agent_filename env1) paths1))
    as Hlast.
  { unfold s1'. rewrite reloads_last_sig, L1. apply refreshed_last_sig. }
  assert (forall a b, stdout a = stdout b -> rebuilds a = rebuilds b) as Hr
    by (unfold rebuilds; intros a b ->; reflexivity).
  repeat split.
  - rewrite (Hr _ _ O1), (refreshed_rebuilds env1 s H1), H. reflexivity.
  - rewrite L1. apply refreshed_last_sig.
  - rewrite (Hr _ _ O2), (refreshed_rebuilds env2 s1' H2), Hlast.
    rewrite <- H. rewrite (proj2 (sig_differs_false _ _) eq_refl).
    reflexivity.
  - exists new. rewrite C2. unfold refreshed. rewrite Hlast, <- H.
    rewrite (proj2 (sig_differs_false _ _) eq_refl). reflexivity.
  - rewrite (Hr _ _ O2), (refreshed_rebuilds env2 s1' H2), Hlast.
    rewrite (proj2 (sig_differs_true _ _)); [reflexivity|].
    intros E. apply H. congruence.
  - rewrite L2. apply refreshed_last_sig.
Qed.

(** C4.  Two runs of the builder on a directory of the same path whose
    eligible readable files have the same names and the same decoded texts
    return the same briefing, whatever else differs (the order of the
    listing, other entries, times, sizes, unreadable files, the program
    state).  The briefing is the fixed header for the path followed by the
    blocks of the files in strictly increasing order of name, joined by a
    newline; it is absent when there is no file. *)
Theorem builder_deterministic (env1 env2 : Env) (s1 s2 : State)
    (d1 d2 : Dir) (paths1 paths2 : list Path) :
  agent_filename env1 = agent_filename env2 ->
  dir_str d1 = dir_str d2 ->
  lists d1 paths1 ->
  lists d2 paths2 ->
  NoDup (map name paths1) ->
  NoDup (map name paths2) ->
  (forall f t,
      (exists p, In p paths1 /\ name p = f
                 /\ eligible (agent_filename env1) p = true
                 /\ read_text p = Ok t)
      <-> (exists p, In p paths2 /\ name p = f
                     /\ eligible (agent_filename env2) p = true
                     /\ read_text p = Ok t)) ->
  fst (build_file_context_message d1 env1 s1)
  = fst (build_file_context_message d2 env2 s2)
  /\ exists files,
      StronglySorted (fun a b : str * str => str_lt (fst a) (fst b)) files
      /\ (forall f t,
             In (f, t) files
             <-> exists p, In p paths1 /\ name p = f
                           /\ eligible (agent_filename env1) p = true
                           /\ read_text p = Ok t)
      /\ fst (build_file_context_message d1 env1 s1)
         = Ok match files with
              | [] => None
              | _ :: _ =>
                  Some {| role := system;
                          content := briefing_header (dir_str d1)
                                     ++ join nl (map block_of files) |}
              end.
Proof.
  intros Ha Hs H1 H2 N1 N2 Hsame.
  erewrite !build_file_context_message_eq by eassumption. simpl fst.
  assert (texts (agent_filename env1) (sorted paths1)
          = texts (agent_filename env2) (sorted paths2)) as E.
  { apply strictly_sorted_unique
      with (R := fun a b : str * str => str_lt (fst a) (fst b)).
    - intros x. apply str_lt_irrefl.
    - intros x y Hxy Hyx. apply (str_lt_irrefl (str_lt_trans Hxy Hyx)).
    - apply texts_sorted, sorted_strict, N1.
    - apply texts_sorted, sorted_strict, N2.
    - intros [f t]. rewrite !texts_sorted_In. apply Hsame. }
  split.
  - unfold briefing. rewrite E, Hs. reflexivity.
  - exists (texts (agent_filename env1) (sorted paths1)). split; [|split].
    + apply texts_sorted, sorted_strict, N1.
    + intros f t. apply texts_sorted_In.
    + unfold briefing.
      destruct (texts (agent_filename env1) (sorted paths1)); reflexivity.
Qed.

(** C5.  A file of the directory that is eligible and whose decoded text
    is longer than [MAX_FILE_CHARS]: the build returns a briefing (it does
    not raise), and the text of the briefing contains [File: ], the name
    of the file, a newline, [---], a newline, and then the text of the file
    cut to a prefix of exactly [MAX_FILE_CHARS] = 8000 characters, followed
    by a newline. *)
Theorem truncation (env : Env) (s : State) (d : Dir) (paths : list Path)
    (p : Path) (text : str) :
  lists d paths ->
  In p paths ->
  eligible (agent_filename env) p = true ->
  read_text p = Ok text ->
  MAX_FILE_CHARS < len text ->
  exists m s' before after cut,
    build_file_context_message d env s = (Ok (Some m), s')
    /\ content m
       = before
         ++ lit "File: " ++ name p ++ [10%N] ++ lit "---" ++ [10%N]
         ++ cut ++ [10%N]
         ++ after
    /\ len cut = 8000
    /\ exists rest, text = cut ++ rest.
Proof.
  intros Hd Hp He Hr Hlen.
  erewrite build_file_context_message_eq by exact Hd.
  pose proof (texts_some (agent_filename env) paths p Hp He Hr) as Hin.
  unfold briefing.
  destruct (texts (agent_filename env) (sorted paths)) as [|x files] eqn:E;
    [destruct Hin|].
  apply (in_map block_of) in Hin.
  destruct (join_contains nl _ _ Hin) as (before & after & Hj).
  exists {| role := system;
            content := briefing_header (dir_str d)
                       ++ join nl (map block_of (x :: files)) |}.
  eexists. exists (briefing_header (dir_str d) ++ before), after.
  exists (slice_to MAX_FILE_CHARS text).
  split; [reflexivity|]. split; [|split].
  - cbn [content]. rewrite Hj. unfold block_of, file_block, nl.
    cbn [fst snd]. rewrite <- !app_assoc. reflexivity.
  - unfold slice_to, MAX_FILE_CHARS, len in *.
    change (8000 <? 0) with false. cbv iota.
    rewrite length_firstn. lia.
  - exists (skipn (Z.to_nat MAX_FILE_CHARS) text). symmetry.
    unfold slice_to. change (MAX_FILE_CHARS <? 0) with false. cbv iota.
    apply firstn_skipn.
Qed.

(** C6.  When no eligible file of the directory can be read (in
    particular when there is none), the builder returns [None], and a
    reload then returns normally with the store reduced to its entries that
    are not the file context: no tagged entry is left and none is
    inserted. *)
Theorem no_briefing (env : Env) (s : State) (paths : list Path) :
  lists (cwd env) paths ->
  (forall p, In p paths -> eligible (agent_filename env) p = true ->
             exists e, read_text p = Raise e) ->
  fst (build_file_context_message (cwd env) env s) = Ok None
  /\ fst (reload_file_context env s) = Ok tt
  /\ context (snd (reload_file_context env s)) = others (context s)
  /\ tagged (context (snd (reload_file_context env s))) = [].
Proof.
  intros Hd Hnone.
  assert (briefing (agent_filename env) (dir_str (cwd env)) paths = None)
    as Hb.
  { unfold briefing. rewrite texts_none; auto.
    intros p Hp. apply Hnone. apply sorted_In, Hp. }
  erewrite build_file_context_message_eq, reload_file_context_eq
    by exact Hd.
  simpl fst; simpl snd. rewrite added_context, Hb. simpl context.
  repeat split. apply tagged_others.
Qed.

(** C7.  When the provider raises on the request of a turn, [process]
    raises the same exception, and the state is the one the request was
    made from: the state after the staleness check with the user entry
    appended.  The other entries of the store are those of before followed
    by the user entry; no assistant entry is added and nothing is undone. *)
Theorem model_failure (env : Env) (s : State) (prompt : str)
    (paths : list Path) (e : exn) :
  lists (cwd env) paths ->
  let s1 := refreshed env paths s in
  client env MODEL (context s1 ++ [user_entry prompt]) = Raise e ->
  process prompt env s
  = (Raise e, with_context (context s1 ++ [user_entry prompt]) s1)
  /\ others (context (snd (process prompt env s)))
     = others (context s) ++ [user_entry prompt].
Proof.
  intros Hd s1 Hc.
  assert (process prompt env s
          = (Raise e, with_context (context s1 ++ [user_entry prompt]) s1))
    as E.
  { rewrite (process_eq env s prompt Hd). cbv zeta. fold s1.
    cbn [context with_context]. rewrite Hc. reflexivity. }
  split; [exact E|]. rewrite E. cbn [snd context with_context].
  rewrite others_snoc by reflexivity. f_equal.
  unfold s1, refreshed. destruct (sig_differs _ _); [|reflexivity].
  cbn [context with_last_sig].
  apply (proj2 (reload_file_context_store env s)).
Qed.

(** C8.  As long as [is_file()] answers for every entry, the signature
    is built without raising, whatever [stat()] does: its elements are
    exactly the triples (name, mtime, size) of the entries that are regular
    files, are not named as the script, have an allowed extension after
    lowercasing, and whose [stat()] succeeded; it is ordered by name, no
    name twice; a file whose [stat()] raised has no element.  But
    [is_file()] is called outside the [try]: when it raises for an entry,
    that exception ends [directory_signature], which returns no signature
    at all.  In the directory [files_denied] the entry [locked.yml] cannot
    be examined and the call raises the permission error; in
    [files_mixed], where a file vanished before its [stat()], the signature
    is that of the two remaining eligible files, [B.TXT] among them. *)
Theorem snapshot_contents :
  (forall env s d paths,
      lists d paths ->
      exists sig,
        directory_signature d env s = (Ok sig, s)
        /\ (forall f mt sz,
               In (f, mt, sz) sig
               <-> exists p, In p paths /\ name p = f
                             /\ is_file p = Ok true
                             /\ f <> agent_filename env
                             /\ In (lower (suffix f)) INCLUDE_EXTENSIONS
                             /\ stat p = Ok {| st_mtime_ns := mt;
                                               st_size := sz |})
        /\ StronglySorted (fun a b : FileRecord =>
                             str_leb (fst (fst a)) (fst (fst b)) = true) sig
        /\ (NoDup (map name paths) ->
            StronglySorted (fun a b : FileRecord =>
                              str_lt (fst (fst a)) (fst (fst b))) sig
            /\ forall p err, In p paths -> stat p = Raise err ->
                             forall mt sz, ~ In (name p, mt, sz) sig))
  /\ (forall env s d paths p e,
         iterdir d = Ok paths -> In p paths -> is_file p = Raise e ->
         exists e', directory_signature d env s = (Raise e', s))
  /\ directory_signature (cwd env_denied) env_denied initial_state
     = (Raise (OSError (lit "Permission denied")), initial_state)
  /\ directory_signature (cwd env_mixed) env_mixed initial_state
     = (Ok [(lit "B.TXT", 3, 5); (lit "notes.txt", 20, 5)], initial_state).
Proof.
  split; [|split; [|split; reflexivity]].
  - intros env s d paths Hd.
    exists (signature_of (agent_filename env) paths).
    pose proof (proj2 Hd) as Ha.
    assert (forall f mt sz,
               In (f, mt, sz) (signature_of (agent_filename env) paths)
               <-> exists p, In p paths /\ name p = f
                             /\ is_file p = Ok true
                             /\ f <> agent_filename env
                             /\ In (lower (suffix f)) INCLUDE_EXTENSIONS
                             /\ stat p = Ok {| st_mtime_ns := mt;
                                               st_size := sz |}) as Hin.
    { intros f mt sz. rewrite signature_of_In by exact Ha. split.
      - intros (p & Hp & <- & He & Hst). apply eligible_iff in He.
        exists p. tauto.
      - intros (p & Hp & <- & Hf & Hn & Hx & Hst). exists p.
        repeat split; auto. apply eligible_iff. auto. }
    split; [apply directory_signature_eq, Hd|].
    split; [exact Hin|]. split.
    + rewrite signature_of_records by exact Ha.
      apply records_sorted, sorted_by_name.
    + intros Hnd. split.
      * rewrite signature_of_records by exact Ha.
        apply records_strict, sorted_strict, Hnd.
      * intros p err Hp Hst mt sz Hcontra.
        apply Hin in Hcontra.
        destruct Hcontra as (q & Hq & Hname & _ & _ & _ & Hstq).
        rewrite (@same_name_same_path paths p q Hnd Hp Hq Hname) in Hstq.
        congruence.
  - intros env s d paths p e Hd Hp He.
    destruct (directory_signature_cases d env s)
      as [[paths' [Hd' Ha]]|[_ Hraise]]; [|exact Hraise].
    exfalso. assert (paths' = paths) as -> by congruence.
    destruct (@all_answer_In paths p Ha Hp). congruence.
Qed.

(** Two explicit reloads in a directory without eligible files leave no
    tagged entry in the store: not the one entry that C9 states. *)
Lemma reload_twice_without_files :
  lists (cwd env_empty) [regular "agent.py" (lit "import os") 5]
  /\ tagged (context (snd (reload_file_context env_empty
                             (snd (reload_file_context env_empty
                                     initial_state))))) = []
  /\ List.length
       (tagged (context (snd (reload_file_context env_empty
                                (snd (reload_file_context env_empty
                                        initial_state))))))
     <> 1%nat.
Proof. vm_compute. repeat split. discriminate. Qed.

(** C9, amended.  Two explicit reloads in the same environment give the
    same store.  When an eligible file of the directory can be read, both
    build the same tagged entry, and after the second the store is that
    entry at index 0 followed by the entries that are not the file context:
    exactly one tagged entry.  When none can be read, the store has no
    tagged entry after either reload. *)
Theorem reload_idempotent (env : Env) (s : State) (paths : list Path) :
  lists (cwd env) paths ->
  let s1 := snd (reload_file_context env s) in
  let s2 := snd (reload_file_context env s1) in
  context s2 = context s1
  /\ ((exists p t, In p paths /\ eligible (agent_filename env) p = true
                   /\ read_text p = Ok t) ->
      exists m,
        fst (build_file_context_message (cwd env) env s) = Ok (Some m)
        /\ fst (build_file_context_message (cwd env) env s1) = Ok (Some m)
        /\ context s1 = m :: others (context s)
        /\ context s2 = m :: others (context s)
        /\ tagged (context s2) = [m])
  /\ ((forall p, In p paths -> eligible (agent_filename env) p = true ->
                 exists e, read_text p = Raise e) ->
      tagged (context s1) = [] /\ tagged (context s2) = []).
Proof.
  intros Hd. cbv zeta.
  erewrite !build_file_context_message_eq by exact Hd.
  erewrite !reload_file_context_eq by exact Hd.
  cbn [fst snd]. rewrite !added_context. cbn [context with_context].
  destruct (briefing (agent_filename env) (dir_str (cwd env)) paths)
    as [m|] eqn:Hb.
  - pose proof (briefing_tagged _ _ _ Hb) as Hm.
    assert (others (m :: others (context s)) = others (context s)) as Ho.
    { unfold others at 1. cbn [filter]. rewrite Hm. cbn [negb].
      apply others_others. }
    rewrite Ho. split; [reflexivity|]. split.
    + intros _. exists m. repeat split.
      unfold tagged. cbn [filter]. rewrite Hm.
      fold (tagged (others (context s))). rewrite tagged_others.
      reflexivity.
    + intros Hnone. exfalso. unfold briefing in Hb.
      rewrite texts_none in Hb; [discriminate|].
      intros p Hp. apply Hnone, sorted_In, Hp.
  - rewrite others_others. split; [reflexivity|]. split.
    + intros (p & t & Hp & He & Hr). exfalso.
      pose proof (texts_some _ _ _ Hp He Hr) as Hin.
      unfold briefing in Hb.
      destruct (texts (agent_filename env) (sorted paths));
        [destruct Hin | discriminate].
    + intros _. split; apply tagged_others.
Qed.

(** C10.  A reload drops from the store every entry of role [system]
    whose content starts with [FILE_CONTEXT_TAG], whoever wrote it: the new
    store is the freshly built entry, if the build gave one, followed by the
    entries of before that fail the prefix test, and an entry that passes
    the test is not among them. *)
Theorem prefix_sniffing (env : Env) (s : State) (m : Entry) :
  In m (context s) ->
  role m = system ->
  startswith (content m) FILE_CONTEXT_TAG = true ->
  let kept := filter (fun x => negb (role_eqb (role x) system
                                     && startswith (content x)
                                          FILE_CONTEXT_TAG))
                (context s) in
  let built := fst (build_file_context_message (cwd env) env
                      (with_context kept s)) in
  ~ In m kept
  /\ context (snd (reload_file_context env s))
     = match built with
       | Ok (Some fresh) => fresh :: kept
       | _ => kept
       end.
Proof.
  intros Hin Hrole Htag. cbv zeta. split.
  - intros Hk. apply filter_In in Hk. destruct Hk as [_ Hk].
    rewrite Hrole, Htag in Hk. discriminate.
  - change (filter _ (context s)) with (others (context s)).
    rewrite (proj1 (reload_file_context_state env s)).
    destruct (fst (build_file_context_message (cwd env) env
                     (with_context (others (context s)) s)))
      as [[fresh|]|e]; reflexivity.
Qed.

(** C1.  The [/reload] line rebuilds the file context but leaves
    [_last_sig] as it was, in every state and environment.  In the session
    [session_reload] (a turn in directory A; a file is added and [/reload]
    is sent; the file is deleted, which gives A again, and a second turn is
    processed) the reload does rebuild, for B, but [_last_sig] after it is
    the snapshot of A, not that of the directory B just read; the second
    turn therefore finds no change, rebuilds nothing, and the request goes
    out with the briefing of B, which lists the deleted file. *)
Theorem explicit_reload_keeps_last_sig :
  (forall env s,
      _last_sig (snd (repl_body (lit "/reload") env s)) = _last_sig s)
  /\ _last_sig (snd (main [lit "agent.py"] env_A env_A
                       (firstn 2 session_reload)))
     = Some (signature_of (lit "agent.py") files_A)
  /\ signature_of (lit "agent.py") files_A
     <> signature_of (lit "agent.py") files_B
  /\ hd_error (context (snd (main [lit "agent.py"] env_A env_A
                               (firstn 2 session_reload))))
     = briefing (lit "agent.py") (lit "/work") files_B
  /\ hd_error (context (snd (main [lit "agent.py"] env_A env_A
                               session_reload)))
     = briefing (lit "agent.py") (lit "/work") files_B
  /\ briefing (lit "agent.py") (lit "/work") files_B
     <> briefing (lit "agent.py") (lit "/work") files_A
  /\ rebuilds (snd (main [lit "agent.py"] env_A env_A
                      (firstn 1 session_reload))) = 2%nat
  /\ rebuilds (snd (main [lit "agent.py"] env_A env_A
                      (firstn 2 session_reload))) = 3%nat
  /\ rebuilds (snd (main [lit "agent.py"] env_A env_A session_reload))
     = 3%nat.
Proof.
  split.
  - intros env s.
    change (repl_body (lit "/reload"))
      with (reload_file_context ;;
            print (printed (lit ">>> file context reloaded" ++ nl)) ;;
            ret Continue).
    match goal with
    | |- _last_sig (snd (bind ?m ?k _ _)) = _ =>
        rewrite (proj2 (@then_print_state _ _ m k env s
                          ltac:(intros ? ? ?; run_monad; simpl; auto)))
    end.
    apply reload_file_context_last_sig.
  - vm_compute. repeat split; discriminate.
Qed.

(** * The theorems at concrete inputs *)

(** Distinct names of a concrete listing. *)
Ltac distinct_names :=
  vm_compute;
  repeat (constructor; [simpl; intuition discriminate|]);
  constructor.

(** Two turns in the unchanged directory A: one rebuild in all. *)
Lemma staleness_gating_witness :
  lists (cwd env_A) files_A
  /\ rebuilds (snd (process (lit "summarize") env_A initial_state)) = 1%nat
  /\ rebuilds (snd (process (lit "again") env_A
                      (snd (process (lit "summarize") env_A initial_state))))
     = 1%nat.
Proof.
  split; [split; reflexivity|].
  destruct (@staleness_gating env_A env_A (lit "summarize") (lit "again")
              initial_state files_A files_A []
              (conj eq_refl eq_refl) (conj eq_refl eq_refl))
    as (Hfirst & Hsame & _).
  destruct (Hfirst eq_refl) as [R1 _]. destruct (Hsame eq_refl) as [R2 _].
  split; [exact R1 | exact (eq_trans R2 R1)].
Defined.

(** The listing of A and its reverse, in different states, give the same
    result. *)
Lemma builder_deterministic_witness :
  NoDup (map name files_A)
  /\ fst (build_file_context_message (cwd env_A) env_A initial_state)
     = fst (build_file_context_message
              {| dir_str := lit "/work"; iterdir := Ok (rev files_A) |}
              env_down state_with_foreign).
Proof.
  split; [distinct_names|].
  apply (@builder_deterministic env_A env_down initial_state
           state_with_foreign (cwd env_A)
           {| dir_str := lit "/work"; iterdir := Ok (rev files_A) |}
           files_A (rev files_A)); try reflexivity; try (split; reflexivity).
  - distinct_names.
  - distinct_names.
  - intros f t. split; intros (p & Hp & H); exists p; split; auto.
    + apply (proj1 (in_rev files_A p)), Hp.
    + apply (proj2 (in_rev files_A p)), Hp.
Defined.

(** A file of 8001 characters is cut to 8000. *)
Lemma truncation_witness :
  MAX_FILE_CHARS < len long_text
  /\ exists m s' before after cut,
      build_file_context_message (cwd env_long) env_long initial_state
      = (Ok (Some m), s')
      /\ content m
         = before
           ++ lit "File: " ++ lit "big.json" ++ [10%N] ++ lit "---" ++ [10%N]
           ++ cut ++ [10%N]
           ++ after
      /\ len cut = 8000
      /\ exists rest, long_text = cut ++ rest.
Proof.
  split; [vm_compute; reflexivity|].
  apply (@truncation env_long initial_state (cwd env_long) files_long
           (regular "big.json" long_text 7) long_text).
  - split; reflexivity.
  - left. reflexivity.
  - reflexivity.
  - reflexivity.
  - vm_compute. reflexivity.
Defined.

(** A directory whose only eligible file vanished: the foreign tagged entry
    is dropped and nothing is inserted. *)
Lemma no_briefing_witness :
  fst (build_file_context_message (cwd env_unreadable) env_unreadable
         state_with_foreign) = Ok None
  /\ fst (reload_file_context env_unreadable state_with_foreign) = Ok tt
  /\ context (snd (reload_file_context env_unreadable state_with_foreign))
     = others (context state_with_foreign)
  /\ tagged (context (snd (reload_file_context env_unreadable
                             state_with_foreign))) = [].
Proof.
  apply (@no_briefing env_unreadable state_with_foreign files_unreadable).
  - split; reflexivity.
  - intros p [<-|[<-|[]]] He.
    + eexists. reflexivity.
    + vm_compute in He. discriminate He.
Defined.

(** The first turn with the provider down. *)
Lemma model_failure_witness :
  client env_down MODEL
    (context (refreshed env_down files_A initial_state)
     ++ [user_entry (lit "hi")])
  = Raise (APIError (lit "connection error"))
  /\ process (lit "hi") env_down initial_state
     = (Raise (APIError (lit "connection error")),
        with_context
          (context (refreshed env_down files_A initial_state)
           ++ [user_entry (lit "hi")])
          (refreshed env_down files_A initial_state))
  /\ others (context (snd (process (lit "hi") env_down initial_state)))
     = others (context initial_state) ++ [user_entry (lit "hi")].
Proof.
  split; [reflexivity|].
  apply (@model_failure env_down initial_state (lit "hi") files_A
           (APIError (lit "connection error")));
    [split; reflexivity | reflexivity].
Defined.

(** Two reloads in directory A. *)
Lemma reload_idempotent_witness :
  lists (cwd env_A) files_A
  /\ context (snd (reload_file_context env_A
                     (snd (reload_file_context env_A state_with_foreign))))
     = context (snd (reload_file_context env_A state_with_foreign))
  /\ List.length
       (tagged (context (snd (reload_file_context env_A
                                (snd (reload_file_context env_A
                                        state_with_foreign))))))
     = 1%nat.
Proof.
  split; [split; reflexivity|].
  destruct (@reload_idempotent env_A state_with_foreign files_A
              (conj eq_refl eq_refl))
    as (Hsame & Hone & _).
  split; [exact Hsame|].
  destruct Hone as (m & _ & _ & _ & _ & Ht).
  - exists (regular "a.md" (lit "hello") 10), (lit "hello").
    split; [right; right; left; reflexivity|]. split; reflexivity.
  - rewrite Ht. reflexivity.
Defined.

(** The foreign entry does not survive a reload. *)
Lemma prefix_sniffing_witness :
  In foreign_entry (context state_with_foreign)
  /\ ~ In foreign_entry
       (filter (fun x => negb (role_eqb (role x) system
                               && startswith (content x) FILE_CONTEXT_TAG))
          (context state_with_foreign))
  /\ ~ In foreign_entry
       (tl (context (snd (reload_file_context env_A state_with_foreign)))).
Proof.
  split; [left; reflexivity|].
  destruct (@prefix_sniffing env_A state_with_foreign foreign_entry
              (or_introl eq_refl) eq_refl eq_refl) as [Hgone Hctx].
  split; [exact Hgone|].
  rewrite Hctx. exact Hgone.
Defined.

(** * Further properties of the program *)

(** ** The loop of [main] *)

Lemma lstrip_spaces (s : str) : forallb isspace s = true -> lstrip s = [].
Proof.
  induction s as [|c s IH]; simpl; auto.
  destruct (isspace c); simpl; [exact IH | discriminate].
Qed.

Lemma strip_spaces (s : str) : forallb isspace s = true -> strip s = [].
Proof. intros H. unfold strip. rewrite (lstrip_spaces s H). reflexivity. Qed.

Lemma repl_body_prompt (raw : str) :
  is_prompt (strip raw) = true ->
  repl_body raw
  = (result <- process (strip raw) ;;
     print (printed (lit ">>> " ++ result ++ nl)) ;;
     ret Continue).
Proof.
  unfold repl_body, is_prompt. cbv zeta.
  destruct (strip raw) as [|c line]; [discriminate|].
  intros H. apply negb_true_iff in H.
  apply orb_false_iff in H. destruct H as [H1 H2].
  rewrite H1, H2. reflexivity.
Qed.

(** X1.  A line that is [/exit] or [/quit] once stripped ends the loop:
    at the head of the input, after the prompt of [input], it prints
    [Exiting.] and changes neither the store nor [_last_sig]; wherever it
    stands, the lines after it are never handled, whatever they are. *)
Theorem exit_ends_loop (env : Env) (raw : str)
    (before rest : list (Env * str)) (s : State) :
  strip raw = lit "/exit" \/ strip raw = lit "/quit" ->
  repl ((env, raw) :: rest) s
  = (Ok tt,
     with_print (printed (lit "Exiting."))
       (with_print (asked (lit "> ")) s))
  /\ repl (before ++ (env, raw) :: rest) s
     = repl (before ++ [(env, raw)]) s.
Proof.
  intros H.
  assert (forall more st,
             repl ((env, raw) :: more) st
             = (Ok tt,
                with_print (printed (lit "Exiting."))
                  (with_print (asked (lit "> ")) st))) as Hhead.
  { intros more st. cbn [repl]. unfold repl_body. cbv zeta.
    destruct H as [H|H]; rewrite H; reflexivity. }
  split; [apply Hhead|].
  revert s. induction before as [|[env' raw'] before IH]; intros s.
  - cbn [app]. rewrite !Hhead. reflexivity.
  - cbn [app repl].
    destruct (repl_body raw' env' (with_print (asked (lit "> ")) s))
      as [[[|]|e] s1]; auto.
Qed.

(** X2.  Lines made of white space only are passed over: each of them
    causes nothing but the prompt of [input].  A session that starts with
    such lines goes on with the lines after them from the same store and the
    same [_last_sig], the output having one [> ] more for each of them. *)
Theorem blank_lines_ignored (blanks rest : list (Env * str)) :
  forall s,
    forallb (fun i => forallb isspace (snd i)) blanks = true ->
    repl (blanks ++ rest) s
    = repl rest
        (with_prints (repeat (asked (lit "> ")) (List.length blanks)) s).
Proof.
  induction blanks as [|[env raw] blanks IH]; intros s Hb.
  - cbn [app List.length repeat]. rewrite with_prints_nil. reflexivity.
  - cbn [forallb snd] in Hb. apply andb_true_iff in Hb.
    destruct Hb as [Hraw Hb].
    cbn [app repl]. unfold repl_body. cbv zeta.
    rewrite (strip_spaces raw Hraw). unfold ret.
    rewrite (IH _ Hb), with_print_prints, with_prints_app. reflexivity.
Qed.

(** ** Turns *)

Lemma refreshed_others env paths s :
  others (context (refreshed env paths s)) = others (context s).
Proof.
  unfold refreshed. destruct (sig_differs _ _); [|reflexivity].
  cbn [context with_last_sig].
  apply (proj2 (reload_file_context_store env s)).
Qed.

Lemma history_others (ctx : list Entry) : history (others ctx) = history ctx.
Proof.
  unfold history, others.
  induction ctx as [|x ctx IH]; cbn [filter]; auto.
  destruct (is_file_context x) eqn:F; cbn [negb filter].
  - unfold is_file_context in F. apply andb_true_iff in F.
    destruct F as [-> _]. exact IH.
  - destruct (role_eqb (role x) system); cbn [negb]; congruence.
Qed.

Lemma history_tagged_cons (m : Entry) (ctx : list Entry) :
  is_file_context m = true -> history (m :: ctx) = history ctx.
Proof.
  unfold history, is_file_context. intros H. cbn [filter].
  apply andb_true_iff in H. destruct H as [-> _]. reflexivity.
Qed.

Lemma history_app (a b : list Entry) :
  history (a ++ b) = history a ++ history b.
Proof. apply filter_app. Qed.

(** X3.  A turn that the provider answers returns the answer as it is; the
    state is the one after the staleness check with the user entry and then
    the assistant entry appended, the request having been made with the
    user entry as its last element.  The entries outside the file context
    are those of before followed by these two. *)
Theorem turn_answered (env : Env) (s : State) (prompt : str)
    (paths : list Path) (out : str) :
  lists (cwd env) paths ->
  let s1 := refreshed env paths s in
  client env MODEL (context s1 ++ [user_entry prompt]) = Ok out ->
  process prompt env s
  = (Ok out,
     with_context
       (context s1 ++ [user_entry prompt; assistant_entry out]) s1)
  /\ others (context (snd (process prompt env s)))
     = others (context s) ++ [user_entry prompt; assistant_entry out].
Proof.
  intros Hd s1 Hc.
  assert (process prompt env s
          = (Ok out,
             with_context
               (context s1 ++ [user_entry prompt; assistant_entry out]) s1))
    as E.
  { rewrite (process_eq env s prompt Hd). cbv zeta. fold s1.
    cbn [context with_context]. rewrite Hc.
    rewrite <- app_assoc. reflexivity. }
  split; [exact E|]. rewrite E. cbn [snd context with_context].
  rewrite others_app. unfold s1. rewrite refreshed_others. reflexivity.
Qed.

(** X4.  A prompt on which the provider raises ends the loop with that
    exception: the lines after it are never handled, and the state is left
    with the user entry of the failed turn as its last entry. *)
Theorem provider_failure_ends_loop (env : Env) (raw : str)
    (rest : list (Env * str)) (s : State) (paths : list Path) (e : exn) :
  is_prompt (strip raw) = true ->
  lists (cwd env) paths ->
  let s1 := refreshed env paths (with_print (asked (lit "> ")) s) in
  client env MODEL (context s1 ++ [user_entry (strip raw)]) = Raise e ->
  repl ((env, raw) :: rest) s
  = (Raise e, with_context (context s1 ++ [user_entry (strip raw)]) s1).
Proof.
  intros Hp Hd s1 Hc. cbn [repl]. rewrite (repl_body_prompt raw Hp).
  unfold bind at 1.
  rewrite (process_eq env (with_print (asked (lit "> ")) s) (strip raw) Hd).
  cbv zeta. fold s1. cbn [context with_context]. rewrite Hc. reflexivity.
Qed.

(** X5.  [reload_file_context] keeps the conversation history, as its docstring
    says: in every state and environment, also when the listing raises, the
    entries whose role is not [system] are after it what they were before,
    in the same order, even those whose text starts with the tag. *)
Theorem reload_keeps_history (env : Env) (s : State) :
  history (context (snd (reload_file_context env s))) = history (context s).
Proof.
  rewrite (proj1 (reload_file_context_state env s)).
  destruct (fst (build_file_context_message (cwd env) env
                   (with_context (others (context s)) s)))
    as [[m|]|e] eqn:Hb.
  - rewrite (@history_tagged_cons m _
               (build_file_context_message_tagged _ _ _ Hb)).
    apply history_others.
  - apply history_others.
  - apply history_others.
Qed.

Lemma refreshed_history env paths s :
  history (context (refreshed env paths s)) = history (context s).
Proof.
  rewrite <- (history_others (context (refreshed env paths s))).
  rewrite refreshed_others. apply history_others.
Qed.

(** X6.  A session of prompts that are all answered runs to the end of
    the input, and its history is the transcript: the history of before,
    then for each line in turn the user entry with the stripped line
    followed by the assistant entry with the text that the provider of that
    line returned for the request of the turn, a request that ends with
    this user entry.  Reloads on the way change nothing of it. *)
Theorem transcript (inputs : list (Env * str)) :
  forall s,
    Forall answered inputs ->
    exists turns : list (list Entry * str),
      fst (repl inputs s) = Ok tt
      /\ Forall2
           (fun (input : Env * str) (turn : list Entry * str) =>
              client (fst input) MODEL (fst turn) = Ok (snd turn)
              /\ exists ctx,
                  fst turn = ctx ++ [user_entry (strip (snd input))])
           inputs turns
      /\ history (context (snd (repl inputs s)))
         = history (context s)
           ++ List.concat
                (map (fun line_turn : str * (list Entry * str) =>
                        [user_entry (strip (fst line_turn));
                         assistant_entry (snd (snd line_turn))])
                   (combine (map snd inputs) turns)).
Proof.
  induction inputs as [|[env raw] rest IH]; intros s Hall.
  - exists []. cbn. rewrite app_nil_r. auto.
  - inversion Hall as [|? ? Hhead Hrest]; subst.
    destruct Hhead as (Hp & [paths Hd] & Hc). cbn [fst snd] in *.
    set (s0 := with_print (asked (lit "> ")) s).
    set (s1 := refreshed env paths s0).
    destruct (Hc (context s1 ++ [user_entry (strip raw)])) as [out Hout].
    assert (repl_body raw env s0
            = (Ok Continue,
               with_print (printed (lit ">>> " ++ out ++ nl))
                 (with_context
                    (context s1
                     ++ [user_entry (strip raw); assistant_entry out])
                    s1))) as Hstep.
    { rewrite (repl_body_prompt raw Hp). unfold bind at 1.
      rewrite (process_eq env s0 (strip raw) Hd). cbv zeta. fold s1.
      cbn [context with_context]. rewrite Hout.
      rewrite <- app_assoc. reflexivity. }
    cbn [repl]. fold s0. rewrite Hstep.
    destruct (IH (with_print (printed (lit ">>> " ++ out ++ nl))
                    (with_context
                       (context s1
                        ++ [user_entry (strip raw); assistant_entry out])
                       s1)) Hrest) as (turns & Hok & Hturns & Hhist).
    exists ((context s1 ++ [user_entry (strip raw)], out) :: turns).
    split; [exact Hok|]. split.
    + constructor; [|exact Hturns]. cbn [fst snd]. split; [exact Hout|].
      exists (context s1). reflexivity.
    + rewrite Hhist. cbn [context with_print with_context].
      rewrite history_app. unfold s1. rewrite refreshed_history.
      cbn [map combine List.concat fst snd]. rewrite <- app_assoc.
      reflexivity.
Qed.

(** ** Start and one-shot use *)

(** X7.  With arguments, [main] handles one turn whose prompt is the arguments
    joined by spaces, and reads no input line.  When both listings succeed
    and the provider answers, [main] returns; the store is the briefing of
    the directory of the turn (if it has one) followed by the user entry and
    the assistant entry; the briefing built at the start is not kept, the
    files being read twice; the answer is the last thing printed. *)
Theorem one_shot (script : str) (args : list str) (env0 env1 : Env)
    (inputs : list (Env * str)) (paths0 paths1 : list Path) (out : str) :
  args <> [] ->
  lists (cwd env0) paths0 ->
  lists (cwd env1) paths1 ->
  client env1 MODEL
    (front env1 paths1 ++ [user_entry (join [32%N] args)]) = Ok out ->
  fst (main (script :: args) env0 env1 inputs) = Ok tt
  /\ context (snd (main (script :: args) env0 env1 inputs))
     = front env1 paths1
       ++ [user_entry (join [32%N] args); assistant_entry out]
  /\ _last_sig (snd (main (script :: args) env0 env1 inputs))
     = Some (signature_of (agent_filename env1) paths1)
  /\ rebuilds (snd (main (script :: args) env0 env1 inputs)) = 2%nat
  /\ last (stdout (snd (main (script :: args) env0 env1 inputs)))
       (printed [])
     = printed out.
Proof.
  intros Hargs H0 H1 Hc.
  set (s0 := added env0 paths0 initial_state).
  assert (refreshed env1 paths1 s0
          = with_last_sig (Some (signature_of (agent_filename env1) paths1))
              (added env1 paths1 (with_context (others (context s0)) s0)))
    as Hr.
  { unfold refreshed, s0. rewrite added_last_sig.
    cbn [_last_sig initial_state sig_differs].
    erewrite reload_file_context_eq by exact H1. reflexivity. }
  assert (others (context s0) = []) as Ho.
  { unfold s0. rewrite added_context. cbn [context initial_state].
    destruct (briefing _ _ _) as [m|] eqn:Hb; [|reflexivity].
    unfold others. cbn [filter]. rewrite (briefing_tagged _ _ _ Hb).
    reflexivity. }
  assert (context (refreshed env1 paths1 s0) = front env1 paths1) as Hctx.
  { rewrite Hr. cbn [context with_last_sig]. rewrite added_context.
    cbn [context with_context]. rewrite Ho. unfold front.
    destruct (briefing _ _ _); reflexivity. }
  assert (rebuilds (refreshed env1 paths1 s0) = 2%nat) as Hre.
  { rewrite Hr.
    change (rebuilds (with_last_sig ?g ?x)) with (rebuilds x).
    rewrite added_rebuilds.
    change (rebuilds (with_context ?c ?x)) with (rebuilds x).
    unfold s0. rewrite added_rebuilds. reflexivity. }
  assert (main (script :: args) env0 env1 inputs
          = (Ok tt,
             with_print (printed out)
               (with_context
                  (front env1 paths1
                   ++ [user_entry (join [32%N] args); assistant_entry out])
                  (refreshed env1 paths1 s0)))) as E.
  { unfold main. erewrite add_initial_file_context_eq by exact H0.
    assert ((1 <? len (script :: args)) = true) as ->.
    { destruct args; [congruence|]. unfold len. cbn [List.length].
      apply Z.ltb_lt. lia. }
    cbn [tl]. unfold bind. fold s0.
    rewrite (process_eq env1 s0 (join [32%N] args) H1). cbv zeta.
    cbn [context with_context]. rewrite Hctx, Hc, <- app_assoc.
    reflexivity. }
  rewrite E. cbn [fst snd context with_context with_print _last_sig stdout].
  repeat split.
  - rewrite Hr. reflexivity.
  - unfold rebuilds. cbn [stdout with_print with_context].
    rewrite filter_app. cbn [filter is_info]. rewrite app_nil_r.
    exact Hre.
  - apply last_last.
Qed.

(** ** Failures of the listing, and detected changes *)

(** X8.  When the directory cannot be listed, a turn raises before anything is
    recorded: the state is untouched, the prompt is not in the store.  An
    explicit reload raises too, but after it has dropped the file-context
    entries: the store is left without any. *)
Theorem listing_failure (env : Env) (s : State) (prompt : str) (e : exn) :
  iterdir (cwd env) = Raise e ->
  process prompt env s = (Raise e, s)
  /\ reload_file_context env s
     = (Raise e, with_context (others (context s)) s)
  /\ tagged (context (snd (reload_file_context env s))) = [].
Proof.
  intros Hd. split; [apply process_raise, Hd|].
  erewrite reload_file_context_raise by exact Hd.
  split; [reflexivity|]. cbn [snd context with_context].
  apply tagged_others.
Qed.

Lemma tagged_front env paths : tagged (front env paths) = front env paths.
Proof.
  unfold front. destruct (briefing _ _ _) as [m|] eqn:Hb; [|reflexivity].
  unfold tagged. cbn [filter]. rewrite (briefing_tagged _ _ _ Hb).
  reflexivity.
Qed.

(** X9.  A turn whose snapshot is not the recorded one leaves a store whose
    file context is that of the directory as it is now: the briefing of the
    current listing in front (or none when there is nothing to read), then
    the entries of before that are not file context, then the entries of the
    turn. *)
Theorem detected_change_refreshes (env : Env) (s : State) (prompt : str)
    (paths : list Path) :
  lists (cwd env) paths ->
  _last_sig s <> Some (signature_of (agent_filename env) paths) ->
  tagged (context (snd (process prompt env s))) = front env paths
  /\ exists new,
      context (snd (process prompt env s))
      = front env paths ++ others (context s) ++ new.
Proof.
  intros Hd Hsig.
  assert (context (refreshed env paths s)
          = front env paths ++ others (context s)) as Hctx.
  { unfold refreshed. rewrite (proj2 (sig_differs_true _ _) Hsig).
    erewrite reload_file_context_eq by exact Hd.
    cbn [snd context with_last_sig]. rewrite added_context.
    cbn [context with_context]. unfold front.
    destruct (briefing _ _ _); reflexivity. }
  rewrite (process_eq env s prompt Hd). cbv zeta.
  destruct (client env _ _) as [out|e]; cbn [snd context with_context];
    rewrite Hctx, <- !app_assoc.
  - split.
    + rewrite !tagged_app, tagged_front, tagged_others. cbn.
      apply app_nil_r.
    + eexists. reflexivity.
  - split.
    + rewrite !tagged_app, tagged_front, tagged_others. cbn.
      apply app_nil_r.
    + eexists. reflexivity.
Qed.

(** ** What the builder reports and includes *)

Lemma warnings_In (agent : str) (paths : list Path) (ev : Event) :
  In ev (warnings agent paths)
  <-> exists p e, In p paths /\ eligible agent p = true
                  /\ read_text p = Raise e /\ ev = warn_skipped (name p) e.
Proof.
  induction paths as [|p rest IH]; simpl.
  - split; [tauto | intros (? & ? & [] & _)].
  - destruct (eligible agent p) eqn:E.
    + destruct (read_text p) as [text|e] eqn:Er.
      * rewrite IH. split.
        -- intros (q & e' & Hq & H). exists q, e'. tauto.
        -- intros (q & e' & [<-|Hq] & He & Hr & Hev); [congruence|].
           exists q, e'. auto.
      * simpl. rewrite IH. split.
        -- intros [<-|(q & e' & Hq & H)].
           ++ exists p, e. auto.
           ++ exists q, e'. tauto.
        -- intros (q & e' & [<-|Hq] & He & Hr & ->).
           ++ left. congruence.
           ++ right. exists q, e'. auto.
    + rewrite IH. split.
      * intros (q & e' & Hq & H). exists q, e'. tauto.
      * intros (q & e' & [<-|Hq] & He & Hr & Hev); [congruence|].
        exists q, e'. auto.
Qed.

(** X10.  On a directory that can be listed and for whose entries
    [is_file()] answers, a build does not raise, whatever happens when the
    files are read.  It prints one warning for each eligible file whose
    reading raised, with the name and the exception, and then one line with
    the names of the files it loaded and their number; the names are those
    of the eligible files that could be read.  It returns no briefing
    exactly when it loaded nothing.  Store and [_last_sig] are as before. *)
Theorem build_report (env : Env) (s : State) (d : Dir)
    (paths : list Path) :
  lists d paths ->
  exists result warns included,
    build_file_context_message d env s
    = (Ok result,
       with_prints
         (warns ++ [info_loaded (len included) (dir_str d) included]) s)
    /\ (forall ev,
           In ev warns
           <-> exists p e, In p paths
                           /\ eligible (agent_filename env) p = true
                           /\ read_text p = Raise e
                           /\ ev = warn_skipped (name p) e)
    /\ (forall f,
           In f included
           <-> exists p t, In p paths /\ name p = f
                           /\ eligible (agent_filename env) p = true
                           /\ read_text p = Ok t)
    /\ (result = None <-> included = []).
Proof.
  intros Hd.
  exists (briefing (agent_filename env) (dir_str d) paths),
    (warnings (agent_filename env) (sorted paths)),
    (map fst (texts (agent_filename env) (sorted paths))).
  split; [apply build_file_context_message_eq, Hd|]. split; [|split].
  - intros ev. rewrite warnings_In.
    split; intros (p & e & Hp & H); exists p, e;
      [rewrite <- sorted_In | rewrite sorted_In]; auto.
  - intros f. rewrite in_map_iff. split.
    + intros ([f' t] & <- & Hin). apply texts_sorted_In in Hin.
      destruct Hin as (p & Hp & Hn & He & Hr). exists p, t. auto.
    + intros (p & t & Hp & Hn & He & Hr). exists (f, t). split; auto.
      apply texts_sorted_In. exists p. auto.
  - unfold briefing.
    destruct (texts (agent_filename env) (sorted paths)); simpl;
      split; congruence.
Qed.

(** X11.  An eligible file whose decoded text has at most [MAX_FILE_CHARS]
    characters is in the briefing whole: the text of the briefing contains
    [File: ], the name of the file, a newline, [---], a newline, and then
    the text of the file as it was read, followed by a newline. *)
Theorem short_file_whole (env : Env) (s : State) (d : Dir)
    (paths : list Path) (p : Path) (text : str) :
  lists d paths ->
  In p paths ->
  eligible (agent_filename env) p = true ->
  read_text p = Ok text ->
  len text <= MAX_FILE_CHARS ->
  exists m s' before after,
    build_file_context_message d env s = (Ok (Some m), s')
    /\ content m
       = before
         ++ lit "File: " ++ name p ++ [10%N] ++ lit "---" ++ [10%N]
         ++ text ++ [10%N]
         ++ after.
Proof.
  intros Hd Hp He Hr Hlen.
  erewrite build_file_context_message_eq by exact Hd.
  pose proof (texts_some (agent_filename env) paths p Hp He Hr) as Hin.
  unfold briefing.
  destruct (texts (agent_filename env) (sorted paths)) as [|x files] eqn:E;
    [destruct Hin|].
  apply (in_map block_of) in Hin.
  destruct (join_contains nl _ _ Hin) as (before & after & Hj).
  assert (slice_to MAX_FILE_CHARS text = text) as Hb.
  { unfold slice_to.
    change (MAX_FILE_CHARS <? 0) with false. cbv iota.
    rewrite firstn_all2; [reflexivity|]. unfold len in Hlen. lia. }
  exists {| role := system;
            content := briefing_header (dir_str d)
                       ++ join nl (map block_of (x :: files)) |}.
  eexists. exists (briefing_header (dir_str d) ++ before), after.
  split; [reflexivity|].
  cbn [content]. rewrite Hj. unfold block_of, file_block, nl.
  cbn [fst snd]. rewrite Hb, <- !app_assoc. reflexivity.
Qed.

(** ** What the signature tells apart *)

(** X12.  Two listings (with distinct names, as in a directory, and with
    [is_file()] answering for every entry) have the same signature exactly
    when they have the same eligible files with the same modification time
    and size: the order of the listing, the entries that are not eligible,
    the files whose [stat] raises and the contents of the files play no
    part; an added or removed file, a changed time or a changed size all
    give another signature. *)
Theorem signature_characterised (agent : str) (paths1 paths2 : list Path) :
  all_answer paths1 = true ->
  all_answer paths2 = true ->
  NoDup (map name paths1) ->
  NoDup (map name paths2) ->
  signature_of agent paths1 = signature_of agent paths2
  <-> (forall f mt sz,
          (exists p, In p paths1 /\ name p = f /\ eligible agent p = true
                     /\ stat p = Ok {| st_mtime_ns := mt; st_size := sz |})
          <-> (exists p, In p paths2 /\ name p = f
                         /\ eligible agent p = true
                         /\ stat p = Ok {| st_mtime_ns := mt;
                                           st_size := sz |})).
Proof.
  intros A1 A2 N1 N2. split.
  - intros E f mt sz.
    rewrite <- (@signature_of_In agent paths1 f mt sz A1).
    rewrite <- (@signature_of_In agent paths2 f mt sz A2).
    rewrite E. reflexivity.
  - intros Hsame.
    apply strictly_sorted_unique
      with (R := fun a b : FileRecord =>
                   str_lt (fst (fst a)) (fst (fst b))).
    + intros x. apply str_lt_irrefl.
    + intros x y Hxy Hyx. apply (str_lt_irrefl (str_lt_trans Hxy Hyx)).
    + rewrite signature_of_records by exact A1.
      apply records_strict, sorted_strict, N1.
    + rewrite signature_of_records by exact A2.
      apply records_strict, sorted_strict, N2.
    + intros [[f mt] sz].
      rewrite (@signature_of_In agent paths1 f mt sz A1).
      rewrite (@signature_of_In agent paths2 f mt sz A2). apply Hsame.
Qed.

(** ** The extension test *)

Lemma lower_char_dot (c : char) : N.eqb (lower_char c) 46 = N.eqb c 46.
Proof.
  unfold lower_char.
  destruct ((65 <=? c)%N && (c <=? 90)%N) eqn:E; auto.
  apply andb_true_iff in E. destruct E as [H1 H2].
  apply N.leb_le in H1. apply N.leb_le in H2.
  destruct (N.eqb_spec (c + 32) 46), (N.eqb_spec c 46); auto; lia.
Qed.

Lemma lower_char_idem (c : char) : lower_char (lower_char c) = lower_char c.
Proof.
  unfold lower_char.
  destruct ((65 <=? c)%N && (c <=? 90)%N) eqn:E.
  - apply andb_true_iff in E. destruct E as [H1 H2].
    apply N.leb_le in H1.
    assert ((c + 32 <=? 90)%N = false) as -> by (apply N.leb_gt; lia).
    rewrite andb_false_r. reflexivity.
  - rewrite E. reflexivity.
Qed.

Lemma rfind_from_lower (s : str) :
  forall i, rfind_from 46%N (lower s) i = rfind_from 46%N s i.
Proof.
  induction s as [|c s IH]; intros i; simpl; auto.
  rewrite IH, lower_char_dot. reflexivity.
Qed.

Lemma suffix_lower (file : str) : suffix (lower file) = lower (suffix file).
Proof.
  unfold suffix, rfind. rewrite rfind_from_lower.
  unfold len, lower. rewrite length_map.
  destruct ((0 <? rfind_from 46%N file 0)
            && (rfind_from 46%N file 0 <? Z.of_nat (List.length file) - 1));
    [|reflexivity].
  apply skipn_map.
Qed.

(** X13.  The extension test does not look at the case of ASCII letters: a name
    and its lowercase form pass or fail it together, so that [NOTES.TXT] is
    taken like [notes.txt]. *)
Theorem extension_case_insensitive (file : str) :
  in_extensions (lower (suffix (lower file)))
  = in_extensions (lower (suffix file)).
Proof.
  rewrite suffix_lower. f_equal. unfold lower. rewrite map_map.
  apply map_ext. intros c. apply lower_char_idem.
Qed.

(** ** The files watched and the files loaded *)

(** X14.  The two loops select the same files, although one writes the test as
    three [continue]s and the other as one condition: for a file of the
    directory that can be both stat'ed and read, being in the signature and
    being named in the [info] line of the build (the last thing a build
    prints) are the same.  A loaded file is a watched file. *)
Theorem watched_are_loaded (env : Env) (s : State) (d : Dir)
    (paths : list Path) (p : Path) (st : stat_result) (t : str) :
  lists d paths ->
  NoDup (map name paths) ->
  In p paths ->
  stat p = Ok st ->
  read_text p = Ok t ->
  exists sig count included,
    fst (directory_signature d env s) = Ok sig
    /\ last (stdout (snd (build_file_context_message d env s))) (printed [])
       = info_loaded count (dir_str d) included
    /\ ((exists mt sz, In (name p, mt, sz) sig) <-> In (name p) included).
Proof.
  intros Hd Hnd Hp Hst Hr.
  exists (signature_of (agent_filename env) paths),
    (len (map fst (texts (agent_filename env) (sorted paths)))),
    (map fst (texts (agent_filename env) (sorted paths))).
  erewrite directory_signature_eq, build_file_context_message_eq
    by exact Hd.
  split; [reflexivity|]. split.
  - cbn [snd stdout with_prints]. rewrite !app_assoc. apply last_last.
  - split.
    + intros (mt & sz & Hin).
      apply (@signature_of_In _ paths _ _ _ (proj2 Hd)) in Hin.
      destruct Hin as (q & Hq & Hname & He & _).
      rewrite (@same_name_same_path paths p q Hnd Hp Hq Hname) in He.
      apply in_map_iff. exists (name p, t). split; [reflexivity|].
      apply texts_some; auto.
    + intros Hin. apply in_map_iff in Hin.
      destruct Hin as ([f t'] & Hf & Hin). cbn [fst] in Hf. subst f.
      apply texts_sorted_In in Hin. destruct Hin as (q & Hq & Hname & He & _).
      rewrite (@same_name_same_path paths p q Hnd Hp Hq Hname) in He.
      exists (st_mtime_ns st), (st_size st).
      apply (@signature_of_In _ paths _ _ _ (proj2 Hd)).
      exists p. destruct st. auto.
Qed.

(** ** These properties at concrete inputs *)

(** [/quit] between blanks, with a line after it. *)
Lemma exit_ends_loop_witness :
  strip (lit "  /quit ") = lit "/quit"
  /\ repl [(env_A, lit "  /quit "); (env_B, lit "never read")]
       state_in_conversation
     = (Ok tt,
        with_print (printed (lit "Exiting."))
          (with_print (asked (lit "> ")) state_in_conversation))
  /\ repl ([(env_A, lit "hello")]
           ++ [(env_A, lit "  /quit "); (env_B, lit "never read")])
       state_in_conversation
     = repl ([(env_A, lit "hello")] ++ [(env_A, lit "  /quit ")])
         state_in_conversation.
Proof.
  split; [reflexivity|].
  apply (@exit_ends_loop env_A (lit "  /quit ") [(env_A, lit "hello")]
           [(env_B, lit "never read")] state_in_conversation).
  right. reflexivity.
Defined.

(** An empty line and a line of two spaces and a tab, before a prompt. *)
Lemma blank_lines_ignored_witness :
  repl ([(env_A, []); (env_B, [32%N; 9%N; 32%N])] ++ [(env_A, lit "hello")])
    state_in_conversation
  = repl [(env_A, lit "hello")]
      (with_prints [asked (lit "> "); asked (lit "> ")]
         state_in_conversation).
Proof.
  apply (@blank_lines_ignored [(env_A, []); (env_B, [32%N; 9%N; 32%N])]
           [(env_A, lit "hello")] state_in_conversation).
  reflexivity.
Defined.

(** A second turn in the unchanged directory A. *)
Lemma turn_answered_witness :
  process (lit "more") env_A state_in_conversation
  = (Ok (lit "fine"),
     with_context
       (context (refreshed env_A files_A state_in_conversation)
        ++ [user_entry (lit "more"); assistant_entry (lit "fine")])
       (refreshed env_A files_A state_in_conversation))
  /\ others (context (snd (process (lit "more") env_A
                             state_in_conversation)))
     = others (context state_in_conversation)
       ++ [user_entry (lit "more"); assistant_entry (lit "fine")].
Proof.
  apply (@turn_answered env_A state_in_conversation (lit "more") files_A
           (lit "fine")); [split; reflexivity | reflexivity].
Defined.

(** The provider is down at the first of two prompts. *)
Lemma provider_failure_ends_loop_witness :
  is_prompt (strip (lit "hello ")) = true
  /\ repl [(env_down, lit "hello "); (env_A, lit "never handled")]
       initial_state
     = (Raise (APIError (lit "connection error")),
        with_context
          (context (refreshed env_down files_A
                      (with_print (asked (lit "> ")) initial_state))
           ++ [user_entry (strip (lit "hello "))])
          (refreshed env_down files_A
             (with_print (asked (lit "> ")) initial_state))).
Proof.
  split; [reflexivity|].
  apply (@provider_failure_ends_loop env_down (lit "hello ")
           [(env_A, lit "never handled")] initial_state files_A
           (APIError (lit "connection error")));
    [reflexivity | split; reflexivity | reflexivity].
Defined.

(** Two prompts, the directory changing between them. *)
Lemma transcript_witness :
  exists turns : list (list Entry * str),
    fst (repl [(env_A, lit "one"); (env_B, lit " two ")] initial_state)
    = Ok tt
    /\ Forall2
         (fun (input : Env * str) (turn : list Entry * str) =>
            client (fst input) MODEL (fst turn) = Ok (snd turn)
            /\ exists ctx,
                fst turn = ctx ++ [user_entry (strip (snd input))])
         [(env_A, lit "one"); (env_B, lit " two ")] turns
    /\ history (context (snd (repl [(env_A, lit "one"); (env_B, lit " two ")]
                                initial_state)))
       = history (context initial_state)
         ++ List.concat
              (map (fun line_turn : str * (list Entry * str) =>
                      [user_entry (strip (fst line_turn));
                       assistant_entry (snd (snd line_turn))])
                 (combine (map snd [(env_A, lit "one"); (env_B, lit " two ")])
                    turns)).
Proof.
  apply (@transcript [(env_A, lit "one"); (env_B, lit " two ")]
           initial_state).
  repeat constructor.
  - exists files_A. split; reflexivity.
  - intros ctx. exists (lit "fine"). reflexivity.
  - exists files_B. split; reflexivity.
  - intros ctx. exists (lit "fine"). reflexivity.
Defined.

(** [agent.py what is this], started in a directory that gets its files
    before the turn. *)
Lemma one_shot_witness :
  context (snd (main [lit "agent.py"; lit "what"; lit "is"; lit "this"]
                  env_empty env_A []))
  = front env_A files_A
    ++ [user_entry (lit "what is this"); assistant_entry (lit "fine")]
  /\ rebuilds (snd (main [lit "agent.py"; lit "what"; lit "is"; lit "this"]
                      env_empty env_A [])) = 2%nat.
Proof.
  destruct (@one_shot (lit "agent.py") [lit "what"; lit "is"; lit "this"]
              env_empty env_A []
              [regular "agent.py" (lit "import os") 5] files_A (lit "fine")
              ltac:(discriminate) (conj eq_refl eq_refl)
              (conj eq_refl eq_refl) eq_refl)
    as (_ & Hctx & _ & Hre & _).
  split; [exact Hctx | exact Hre].
Defined.

(** A directory that cannot be listed, in the middle of a conversation. *)
Lemma listing_failure_witness :
  process (lit "more") env_unlistable state_in_conversation
  = (Raise (OSError (lit "Permission denied")), state_in_conversation)
  /\ reload_file_context env_unlistable state_in_conversation
     = (Raise (OSError (lit "Permission denied")),
        with_context (others (context state_in_conversation))
          state_in_conversation)
  /\ tagged (context (snd (reload_file_context env_unlistable
                             state_in_conversation))) = [].
Proof.
  apply (@listing_failure env_unlistable state_in_conversation (lit "more")
           (OSError (lit "Permission denied"))).
  reflexivity.
Defined.

(** [a.md] was rewritten since the recorded snapshot. *)
Lemma detected_change_refreshes_witness :
  _last_sig state_in_conversation
  <> Some (signature_of (lit "agent.py") files_A_touched)
  /\ tagged (context (snd (process (lit "more")
                             (env_of files_A_touched (Ok (lit "fine")))
                             state_in_conversation)))
     = front (env_of files_A_touched (Ok (lit "fine"))) files_A_touched.
Proof.
  assert (_last_sig state_in_conversation
          <> Some (signature_of (lit "agent.py") files_A_touched)) as H
    by (vm_compute; discriminate).
  split; [exact H|].
  apply (@detected_change_refreshes
           (env_of files_A_touched (Ok (lit "fine")))
           state_in_conversation (lit "more") files_A_touched
           (conj eq_refl eq_refl) H).
Defined.

(** A directory with a vanished file: one warning, one file loaded. *)
Lemma build_report_witness :
  exists result warns included,
    build_file_context_message (cwd env_gone) env_gone initial_state
    = (Ok result,
       with_prints
         (warns ++ [info_loaded (len included) (lit "/work") included])
         initial_state)
    /\ In (warn_skipped (lit "gone.yml")
             (OSError (lit "No such file or directory"))) warns
    /\ In (lit "a.md") included.
Proof.
  destruct (@build_report env_gone initial_state (cwd env_gone) files_gone
              (conj eq_refl eq_refl))
    as (result & warns & included & E & Hw & Hi & _).
  exists result, warns, included. split; [exact E|]. split.
  - apply Hw. exists (vanished "gone.yml"),
      (OSError (lit "No such file or directory")).
    split; [left; reflexivity|]. repeat split.
  - apply Hi. exists (regular "a.md" (lit "hello") 10), (lit "hello").
    split; [right; left; reflexivity|]. repeat split.
Defined.

(** The short file beside the long one. *)
Lemma short_file_whole_witness :
  len (lit "hello") <= MAX_FILE_CHARS
  /\ exists m s' before after,
      build_file_context_message (cwd env_long) env_long initial_state
      = (Ok (Some m), s')
      /\ content m
         = before
           ++ lit "File: " ++ lit "a.md" ++ [10%N] ++ lit "---" ++ [10%N]
           ++ lit "hello" ++ [10%N]
           ++ after.
Proof.
  split; [vm_compute; discriminate|].
  apply (@short_file_whole env_long initial_state (cwd env_long) files_long
           (regular "a.md" (lit "hello") 10) (lit "hello")).
  - split; reflexivity.
  - right. left. reflexivity.
  - reflexivity.
  - reflexivity.
  - vm_compute. discriminate.
Defined.

(** The listing of A in the reverse order has the signature of A. *)
Lemma signature_characterised_witness :
  NoDup (map name files_A)
  /\ signature_of (lit "agent.py") files_A
     = signature_of (lit "agent.py") (rev files_A).
Proof.
  split; [distinct_names|].
  apply (proj2 (@signature_characterised (lit "agent.py") files_A
                  (rev files_A) eq_refl eq_refl ltac:(distinct_names)
                  ltac:(distinct_names))).
  intros f mt sz. split; intros (p & Hp & H); exists p; split; auto.
  - apply (proj1 (in_rev files_A p)), Hp.
  - apply (proj2 (in_rev files_A p)), Hp.
Defined.

(** [a.md] in directory A is watched and loaded. *)
Lemma watched_are_loaded_witness :
  In (regular "a.md" (lit "hello") 10) files_A
  /\ exists sig count included,
      fst (directory_signature (cwd env_A) env_A initial_state) = Ok sig
      /\ last (stdout (snd (build_file_context_message (cwd env_A) env_A
                              initial_state))) (printed [])
         = info_loaded count (lit "/work") included
      /\ ((exists mt sz, In (lit "a.md", mt, sz) sig)
          <-> In (lit "a.md") included).
Proof.
  split; [right; right; left; reflexivity|].
  apply (@watched_are_loaded env_A initial_state (cwd env_A) files_A
           (regular "a.md" (lit "hello") 10)
           {| st_mtime_ns := 10; st_size := 5 |} (lit "hello")).
  - split; reflexivity.
  - distinct_names.
  - right. right. left. reflexivity.
  - reflexivity.
  - reflexivity.
Defined.
